(** * Task extraction, state cycling and cross-reference propagation

    A shallow embedding of [plugs/tasks/task.ts]: the indexer
    ([indexTasks]), the state cycle engine with its backlink resolver
    ([cycleTaskState], [taskCycleAtPos], [taskToggle]) and the query
    provider ([queryProvider]).

    Conventions of the embedding.
    - A JavaScript string is a [string]; its units are the characters of
      that type.  Offsets, lengths and the ordering used by [Array.sort]
      agree with JavaScript on ASCII text, which is what state tokens,
      index keys and [page@offset] references are made of.
    - A JavaScript number is a [JsNum]: an integer or [NaN].
    - A JavaScript object used as a record is a finite map from field
      names to values; an assignment [obj[key] = value] is an insertion,
      over whatever the field held.
    - A thrown exception, and a non-null assertion [e!] on a value that is
      absent, end a computation with [Threw].
    - Syscalls act on an explicit [World] and leave an [Event] each; a
      computation is a function from the world to its [Result].
    - A node of a parse tree that the code holds by reference is given by
      the tree and the path of the node in it; the parent pointers that
      [addParentPointers] installs are read off the path.
    - The helpers of [$sb/lib/tree.ts] are modelled in [Tree]; the parser,
      the attribute grammar, the link rewriter and the query evaluator
      are the fields of the class [Library], and the properties hold for
      every instance of it.  [Demo] is one instance, on which the program
      is run. *)

From stdpp Require Import gmap strings list fin_maps.
From Stdlib Require Import ZArith String Ascii DecimalString DecimalPos Sorted.

Open Scope string_scope.
Open Scope Z_scope.

(** ** JavaScript primitives *)

Module JS.

(** A number: [None] is [NaN]. *)
Definition JsNum := option Z.

Definition num_add (n : JsNum) (k : Z) : JsNum :=
  match n with Some z => Some (z + k) | None => None end.

(** [a < b] and [a >= b]; both are false when an operand is [NaN]. *)
Definition num_lt (a b : JsNum) : bool :=
  match a, b with Some x, Some y => x <? y | _, _ => false end.

Definition num_ge (a b : JsNum) : bool :=
  match a, b with Some x, Some y => x >=? y | _, _ => false end.

(** Unary plus on a string, where it reads an integer written the way
    the program itself writes one: the empty string is [0], and an
    optionally negated run of decimal digits is that integer.  On these
    strings the answer is the program's.  Every other string is answered
    [None] here, also where unary plus reads a number from it (a sign
    [+], white space around the numeral, a fraction, an exponent, a
    radix prefix): what is stated of a position is stated for a string
    that is read as an integer. *)
Definition digits_to_Z (s : string) : JsNum :=
  match s with
  | EmptyString => None
  | _ => Z.of_uint <$> NilEmpty.uint_of_string s
  end.

Definition toNumber (s : string) : JsNum :=
  match s with
  | EmptyString => Some 0
  | String "-"%char rest => Z.opp <$> digits_to_Z rest
  | _ => digits_to_Z s
  end.

(** Template-literal rendering [`${n}`] of an integer. *)
Definition numToString (z : Z) : string :=
  NilZero.string_of_int (Z.to_int z).

(** [s.split(sep)] for a one-character separator. *)
Fixpoint split (sep : ascii) (s : string) : list string :=
  match s with
  | EmptyString => [EmptyString]
  | String c rest =>
      if Ascii.eqb c sep then EmptyString :: split sep rest
      else match split sep rest with
           | [] => [String c EmptyString]
           | seg :: segs => String c seg :: segs
           end
  end.

(** [s.includes(c)] for a one-character needle. *)
Fixpoint includesChar (c : ascii) (s : string) : bool :=
  match s with
  | EmptyString => false
  | String d rest => Ascii.eqb d c || includesChar c rest
  end.

(** [arr.includes(x)] on an array of strings. *)
Definition includes (arr : list string) (x : string) : bool :=
  existsb (String.eqb x) arr.

(** [arr.indexOf(x)]; [None] stands for [-1]. *)
Fixpoint indexOf (x : string) (arr : list string) : option nat :=
  match arr with
  | [] => None
  | y :: rest => if String.eqb y x then Some O else S <$> indexOf x rest
  end.

(** [[...new Set(arr)]]: first occurrences, in order. *)
Fixpoint dedupe (arr : list string) : list string :=
  match arr with
  | [] => []
  | x :: rest => x :: List.filter (fun y => negb (String.eqb y x)) (dedupe rest)
  end.

(** The order of the default comparator of [arr.sort()]: strings are
    compared by their UTF-16 code units.  On UTF-8 text that is the order
    of the bytes, but for the characters U+E000 to U+FFFF (lead bytes
    [0xEE] and [0xEF]), which come after the astral characters (lead
    bytes [0xF0] to [0xF4]): their lead bytes are moved past [0xF4]. *)
Definition unitKey (c : ascii) : ascii :=
  let n := nat_of_ascii c in
  if Nat.eqb n 238 then ascii_of_nat 245
  else if Nat.eqb n 239 then ascii_of_nat 246
  else c.

Fixpoint unitKeys (s : string) : string :=
  match s with
  | EmptyString => EmptyString
  | String c rest => String (unitKey c) (unitKeys rest)
  end.

Definition leb (a b : string) : bool := String.leb (unitKeys a) (unitKeys b).

(** [arr.sort()] with the default comparator. *)
Fixpoint insertSorted (x : string) (arr : list string) : list string :=
  match arr with
  | [] => [x]
  | y :: rest => if leb x y then x :: y :: rest
                 else y :: insertSorted x rest
  end.

Definition sort (arr : list string) : list string :=
  foldr insertSorted [] arr.


(** [s.substring(a, b)]: [NaN] counts as [0], both indices are clamped to
    [[0, s.length]] and swapped when out of order.  Lengths and indices
    count bytes; the program counts UTF-16 code units, which is the same
    on a text within ASCII ([isAscii]). *)
Definition clampIndex (n : JsNum) (len : Z) : Z :=
  match n with
  | None => 0
  | Some z => Z.max 0 (Z.min z len)
  end.

Definition substring (s : string) (a b : JsNum) : string :=
  let len := Z.of_nat (String.length s) in
  let ia := clampIndex a len in
  let ib := clampIndex b len in
  let lo := Z.min ia ib in
  let hi := Z.max ia ib in
  String.substring (Z.to_nat lo) (Z.to_nat (hi - lo)) s.

(** [s.substring(1)]. *)
Definition dropFirst (s : string) : string :=
  substring s (Some 1) (Some (Z.of_nat (String.length s))).

(** White space as [\s] and [trim] see it: the characters U+0009 to
    U+000D, U+0020, U+00A0, U+1680, U+2000 to U+200A, U+2028, U+2029,
    U+202F, U+205F, U+3000 and U+FEFF, in UTF-8.  [spaceWidth s] is the
    number of bytes of the white-space character that [s] starts with,
    and [0] when it starts with none. *)
Definition byteAt (i : nat) (s : string) : nat :=
  match String.get i s with
  | Some c => nat_of_ascii c
  | None => 256%nat
  end.

Definition spaceWidth (s : string) : nat :=
  let b0 := byteAt 0 s in
  let b1 := byteAt 1 s in
  let b2 := byteAt 2 s in
  if (Nat.eqb b0 32 || (Nat.leb 9 b0 && Nat.leb b0 13))%bool then 1%nat
  else if (Nat.eqb b0 194 && Nat.eqb b1 160)%bool then 2%nat
  else if (Nat.eqb b0 225 && Nat.eqb b1 154 && Nat.eqb b2 128)%bool then 3%nat
  else if (Nat.eqb b0 226 && Nat.eqb b1 128
           && ((Nat.leb 128 b2 && Nat.leb b2 138)
               || Nat.eqb b2 168 || Nat.eqb b2 169 || Nat.eqb b2 175))%bool then 3%nat
  else if (Nat.eqb b0 226 && Nat.eqb b1 129 && Nat.eqb b2 159)%bool then 3%nat
  else if (Nat.eqb b0 227 && Nat.eqb b1 128 && Nat.eqb b2 128)%bool then 3%nat
  else if (Nat.eqb b0 239 && Nat.eqb b1 187 && Nat.eqb b2 191)%bool then 3%nat
  else O.

(** [s.trimStart()]; [inside] bytes of a white-space character are
    still to be passed over. *)
Fixpoint dropSpaces (inside : nat) (s : string) {struct s} : string :=
  match s with
  | EmptyString => EmptyString
  | String _ rest =>
      match inside with
      | S k => dropSpaces k rest
      | O => match spaceWidth s with
             | S k => dropSpaces k rest
             | O => s
             end
      end
  end.

Definition trimStart (s : string) : string := dropSpaces 0 s.

(** A text of white space only. *)
Definition blank (s : string) : bool := String.eqb (trimStart s) EmptyString.

(** [s.trimEnd()]: the text up to its last character that is not white
    space. *)
Fixpoint trimEnd (s : string) : string :=
  match s with
  | EmptyString => EmptyString
  | String c rest => if blank s then EmptyString else String c (trimEnd rest)
  end.

Definition trim (s : string) : string := trimEnd (trimStart s).

(** [s.replace(/<lit>\s*/, "")] for a literal [lit]: the first occurrence
    of [lit] goes, with the white space that follows it. *)
Fixpoint stripPrefix (p s : string) : option string :=
  match p, s with
  | EmptyString, _ => Some s
  | String a p', String b s' => if Ascii.eqb a b then stripPrefix p' s' else None
  | String _ _, EmptyString => None
  end.

Fixpoint removeFirstWithSpace (lit s : string) : string :=
  match stripPrefix lit s with
  | Some rest => trimStart rest
  | None => match s with
            | EmptyString => EmptyString
            | String c rest => String c (removeFirstWithSpace lit rest)
            end
  end.

(** [arr.join("")]. *)
Definition join (pieces : list string) : string :=
  foldr String.append EmptyString pieces.

(** [s.startsWith(p)]. *)
Definition startsWith (p s : string) : bool :=
  match stripPrefix p s with Some _ => true | None => false end.

End JS.

(** ** Outcomes of fallible code *)

Inductive Outcome (A : Type) : Type :=
| Done (a : A)
| Threw.
Arguments Done {A} a.
Arguments Threw {A}.

#[global] Instance Outcome_ret : MRet Outcome := fun A a => Done a.
#[global] Instance Outcome_bind : MBind Outcome := fun A B f m =>
  match m with
  | Done a => f a
  | Threw => Threw
  end.

(** A read [e!] of a possibly absent value. *)
Definition assertPresent {A} (o : option A) : Outcome A :=
  match o with
  | Some a => Done a
  | None => Threw
  end.

(** ** Parse trees ([$sb/lib/tree.ts]) *)

Module Tree.

(** A node as the markdown parser delivers it: a text leaf
    [{from, to, text}], or a typed node [{type, from, to, children}]. *)
#[warnings="-register-all"] Inductive ParseTree : Type :=
| TextNode (from to : Z) (text : string)
| Node (type : string) (from to : Z) (children : list ParseTree).

Definition nodeType (t : ParseTree) : option string :=
  match t with
  | TextNode _ _ _ => None
  | Node ty _ _ _ => Some ty
  end.

Definition nodeFrom (t : ParseTree) : Z :=
  match t with
  | TextNode a _ _ => a
  | Node _ a _ _ => a
  end.

Definition nodeTo (t : ParseTree) : Z :=
  match t with
  | TextNode _ b _ => b
  | Node _ _ b _ => b
  end.

Definition nodeText (t : ParseTree) : option string :=
  match t with
  | TextNode _ _ s => Some s
  | Node _ _ _ _ => None
  end.

Definition nodeChildren (t : ParseTree) : option (list ParseTree) :=
  match t with
  | TextNode _ _ _ => None
  | Node _ _ _ cs => Some cs
  end.

(** [n.type === ty]. *)
Definition hasType (ty : string) (t : ParseTree) : bool :=
  match nodeType t with
  | Some ty' => String.eqb ty' ty
  | None => false
  end.

(** [t.children![i]]: fails when [t] has no children; an index out of
    range reads [undefined], here [None]. *)
Definition childAt (t : ParseTree) (i : nat) : Outcome (option ParseTree) :=
  cs ← assertPresent (nodeChildren t); mret (cs !! i).

(** [t.children![i].text!].  The assertion [!] is erased when the program
    runs, so a child without a text would be read as [undefined]; the
    grammar gives no such child where the program reads one, and the
    model ends the run there. *)
Definition childText (t : ParseTree) (i : nat) : Outcome string :=
  c ← childAt t i; c ← assertPresent c; assertPresent (nodeText c).

(** Modelled from the spec: [renderToText] of [$sb/lib/tree.ts], which is
    not among the sources; the text of a leaf, and the concatenation of
    the children's renderings otherwise. *)
Fixpoint renderToText (t : ParseTree) : string :=
  match t with
  | TextNode _ _ s => s
  | Node _ _ _ cs => JS.join (List.map renderToText cs)
  end.

(** Modelled from the spec: [collectNodesMatching] of [$sb/lib/tree.ts];
    document order, and no descent below a node that matches. *)
Fixpoint collectNodesMatching (matchFn : ParseTree -> bool) (t : ParseTree)
  : list ParseTree :=
  if matchFn t then [t]
  else match t with
       | TextNode _ _ _ => []
       | Node _ _ _ cs => List.concat (List.map (collectNodesMatching matchFn) cs)
       end.

(** A node reached from a root: the child indices on the way down.  The
    parent pointers that [addParentPointers] installs are read off the
    path: the parent of the node at [p] is the node at [parentPath p]. *)
Definition Path := list nat.

Fixpoint subtree (t : ParseTree) (p : Path) : option ParseTree :=
  match p with
  | [] => Some t
  | i :: rest =>
      match t with
      | TextNode _ _ _ => None
      | Node _ _ _ cs => c ← cs !! i; subtree c rest
      end
  end.

Definition parentPath (p : Path) : option Path :=
  match p with
  | [] => None
  | _ => Some (removelast p)
  end.

(** In-place change of the node at [p]. *)
Fixpoint updateAt (t : ParseTree) (p : Path) (f : ParseTree -> ParseTree)
  : ParseTree :=
  match p with
  | [] => f t
  | i :: rest =>
      match t with
      | TextNode _ _ _ => t
      | Node ty a b cs => Node ty a b (alter (fun c => updateAt c rest f) i cs)
      end
  end.

(** The loop over the children in [nodeAtPos]: the first child that
    holds the position decides. *)
Definition scanChildren (self : ParseTree)
    (find : ParseTree -> option (Path * ParseTree))
  : nat -> list ParseTree -> option (Path * ParseTree) :=
  fix scan (i : nat) (l : list ParseTree) :=
    match l with
    | [] => None
    | c :: rest =>
        match find c with
        | Some (p, n) =>
            match nodeText n with
            | Some _ => Some ([], self)
            | None => Some (i :: p, n)
            end
        | None => scan (S i) rest
        end
    end.

(** Modelled from the spec: [nodeAtPos] of [$sb/lib/tree.ts]; the deepest
    non-text node whose range [[from, to)] holds [pos].  A text leaf that
    is hit yields the node above it. *)
Fixpoint nodeAtPos (t : ParseTree) (pos : JS.JsNum) : option (Path * ParseTree) :=
  if (JS.num_lt pos (Some (nodeFrom t)) || JS.num_ge pos (Some (nodeTo t)))%bool
  then None
  else match t with
       | TextNode _ _ _ => Some ([], t)
       | Node _ _ _ cs => scanChildren t (fun c => nodeAtPos c pos) O cs
       end.

(** What a substitution callback answers: [undefined], [null], or a node. *)
Inductive Subst : Type :=
| Continue
| Remove
| Replace (t : ParseTree).

(** The loop over the children in [replaceNodesMatching]. *)
Definition substituteChildren {St : Type}
    (substituteFn : ParseTree -> St -> Outcome (Subst * St))
    (descend : ParseTree -> St -> Outcome (ParseTree * St))
  : list ParseTree -> St -> Outcome (list ParseTree * St) :=
  fix each (l : list ParseTree) (s : St) :=
    match l with
    | [] => Done ([], s)
    | c :: rest =>
        '(subst, s1) ← substituteFn c s;
        match subst with
        | Remove => each rest s1
        | Replace c' => '(l', s2) ← each rest s1; mret (c' :: l', s2)
        | Continue =>
            '(c', s2) ← descend c s1;
            '(l', s3) ← each rest s2;
            mret (c' :: l', s3)
        end
    end.

(** Modelled from the spec: [replaceNodesMatching] of [$sb/lib/tree.ts];
    every child is offered to the callback, which deletes it, replaces it
    or lets the walk go on below it.  The callback's captured variables
    are the state [St]. *)
Fixpoint replaceNodesMatching {St : Type}
    (substituteFn : ParseTree -> St -> Outcome (Subst * St))
    (t : ParseTree) (s : St) : Outcome (ParseTree * St) :=
  match t with
  | TextNode _ _ _ => Done (t, s)
  | Node ty a b cs =>
      '(cs', s') ← substituteChildren substituteFn
                     (replaceNodesMatching substituteFn) cs s;
      mret (Node ty a b cs', s')
  end.

(** Where a visited node sits: its parent and its index among the parent's
    children; [None] at the root. *)
Definition Context := option (ParseTree * nat).

(** The loop over the children in the traversal. *)
Definition eachChild {St : Type}
    (visit : nat -> ParseTree -> St -> Outcome St)
  : nat -> list ParseTree -> St -> Outcome St :=
  fix each (i : nat) (l : list ParseTree) (s : St) :=
    match l with
    | [] => Done s
    | c :: rest => s2 ← visit i c s; each (S i) rest s2
    end.

(** Modelled from the spec: [traverseTreeAsync] of [$sb/lib/tree.ts];
    document order, and a callback that answers [true] stops the descent
    below its node. *)
Fixpoint traverseTree {St : Type}
    (matchFn : ParseTree -> Context -> St -> Outcome (bool * St))
    (ctx : Context) (t : ParseTree) (s : St) : Outcome St :=
  '(stop, s1) ← matchFn t ctx s;
  if (stop : bool) then Done s1
  else match t with
       | TextNode _ _ _ => Done s1
       | Node _ _ _ cs =>
           eachChild (fun i c s => traverseTree matchFn (Some (t, i)) c s) O cs s1
       end.

End Tree.

(** ** Values, the world and the syscalls *)

Import Tree.

(** Field values of a task record and of an attribute. *)
Inductive Value : Type :=
| VStr (s : string)
| VNum (n : JS.JsNum)
| VBool (b : bool)
| VList (l : list string).

(** A JavaScript object used as a record: [Task] is
    [{name, done, state, deadline?, tags?, nested?, pos?, page?} &
    Record<string, any>]. *)
Abbreviation Obj := (gmap string Value).

(** What the index holds under a key: a task record or a count. *)
Inductive Stored : Type :=
| STask (task : Obj)
| SCount (count : Z).

(** One result of [index.queryPrefix]. *)
Record Entry : Type := mkEntry {
  key : string;
  page : string;
  value : Stored
}.

Inductive Event : Type :=
| EvGetText
| EvDispatch (from to : JS.JsNum) (insert : string)
| EvReadPage (name : string)
| EvWritePage (name text : string)
| EvScheduleFileSync (path : string)
| EvQueryPrefix (prefix : string)
| EvBatchSet (name : string) (entries : list (string * Stored))
| EvIndexAttributes (name : string) (attributes : Obj) (kind : string)
| EvConsoleError (message : string).

(** The open buffer, the page store and the index store (entries scoped
    by page, then key). *)
Record World : Type := mkWorld {
  editorText : string;
  pages : gmap string string;
  indexStore : gmap (string * string) Stored
}.

(** What a run leaves: how it ended, the world after it, and the syscalls
    it made, in order. *)
Record Result (A : Type) : Type := mkResult {
  outcome : Outcome A;
  final : World;
  events : list Event
}.
Arguments mkResult {A} outcome final events.
Arguments outcome {A} r.
Arguments final {A} r.
Arguments events {A} r.

Definition M (A : Type) : Type := World -> Result A.

#[global] Instance M_ret : MRet M := fun A a w => mkResult (Done a) w [].
#[global] Instance M_bind : MBind M := fun A B f m w =>
  let r := m w in
  match outcome r with
  | Done a => let r' := f a (final r) in
              mkResult (outcome r') (final r') (events r ++ events r')
  | Threw => mkResult Threw (final r) (events r)
  end.

Definition liftOutcome {A} (o : Outcome A) : M A :=
  fun w => mkResult o w [].

Module Syscall.

(** The editor, the page store, the index store and the scheduler are
    external; each syscall is modelled from section 6 of the
    specification, as it goes when the store answers.  That a store
    fails on a call, and what a store does with the entries a batch does
    not name, is the store's own doing and is not modelled: nothing
    below is stated of either. *)

(** Modelled from the spec: [editor.getText()], the text of the open
    buffer. *)
Definition getText : M string :=
  fun w => mkResult (Done (editorText w)) w [EvGetText].

(** The buffer after the replacement of [[a, b)] by [insert]. *)
Definition replaceRange (text : string) (a b : Z) (insert : string) : string :=
  String.substring O (Z.to_nat a) text
  +:+ insert
  +:+ String.substring (Z.to_nat b) (String.length text - Z.to_nat b) text.

(** Modelled from the spec: [editor.dispatch({changes: {from, to,
    insert}})], a range replacement on the open buffer; a range outside
    the buffer is refused with an exception. *)
Definition dispatch (a b : JS.JsNum) (insert : string) : M unit :=
  fun w =>
    match a, b with
    | Some x, Some y =>
        if ((0 <=? x) && (x <=? y) && (y <=? Z.of_nat (String.length (editorText w))))%bool
        then mkResult (Done tt)
               (mkWorld (replaceRange (editorText w) x y insert) (pages w) (indexStore w))
               [EvDispatch a b insert]
        else mkResult Threw w [EvDispatch a b insert]
    | _, _ => mkResult Threw w [EvDispatch a b insert]
    end.

(** Modelled from the spec: [space.readPage(name)]; a page that does
    not exist is a storage failure. *)
Definition readPage (name : string) : M string :=
  fun w => mkResult (assertPresent (pages w !! name)) w [EvReadPage name].

(** Modelled from the spec: [space.writePage(name, text)]. *)
Definition writePage (name text : string) : M unit :=
  fun w => mkResult (Done tt)
             (mkWorld (editorText w) (<[name := text]> (pages w)) (indexStore w))
             [EvWritePage name text].

(** Modelled from the spec: [sync.scheduleFileSync(path)], a request
    that is recorded. *)
Definition scheduleFileSync (path : string) : M unit :=
  fun w => mkResult (Done tt) w [EvScheduleFileSync path].

(** The entries of the index store, each with its page. *)
Definition entriesOf (store : gmap (string * string) Stored) : list Entry :=
  (fun '((p, k), v) => mkEntry k p v) <$> map_to_list store.

(** Modelled from the spec: [index.queryPrefix(prefix)], every entry, of
    every page, whose key starts with [prefix]. *)
Definition entriesWithPrefix (prefix : string) (w : World) : list Entry :=
  List.filter (fun e => JS.startsWith prefix (key e)) (entriesOf (indexStore w)).

Definition queryPrefix (prefix : string) : M (list Entry) :=
  fun w => mkResult (Done (entriesWithPrefix prefix w)) w [EvQueryPrefix prefix].

(** Modelled from the spec: [index.batchSet(name, entries)]; each entry
    is stored under the page and its key, over what was there. *)
Definition storeAll (name : string) (entries : list (string * Stored))
    (store : gmap (string * string) Stored) : gmap (string * string) Stored :=
  foldl (fun m '(k, v) => <[(name, k) := v]> m) store entries.

Definition batchSet (name : string) (entries : list (string * Stored)) : M unit :=
  fun w => mkResult (Done tt)
             (mkWorld (editorText w) (pages w) (storeAll name entries (indexStore w)))
             [EvBatchSet name entries].

(** Modelled from the spec: [indexAttributes(name, attributes, kind)] of
    [../index/attributes.ts]; the attribute index is a separate
    component, and the call is recorded. *)
Definition indexAttributes (name : string) (attributes : Obj) (kind : string)
  : M unit :=
  fun w => mkResult (Done tt) w [EvIndexAttributes name attributes kind].

(** [console.error(message, ...)]. *)
Definition consoleError (message : string) : M unit :=
  fun w => mkResult (Done tt) w [EvConsoleError message].

End Syscall.

(** The functions task.ts imports from the parser, the query library,
    the attribute grammar and the link resolver. *)
Class Library : Type := {
  Query : Type;
  (** [markdown.parseMarkdown(text)] *)
  parseMarkdown : string -> ParseTree;
  (** [removeQueries(tree)], the tree after the call *)
  removeQueries : ParseTree -> ParseTree;
  (** [rewritePageRefs(n, name)], the node after the call *)
  rewritePageRefs : ParseTree -> string -> ParseTree;
  (** [extractAttributes(n, clean)]: the attributes, in the order of
      [Object.entries], and the node after the call *)
  extractAttributes : ParseTree -> bool -> list (string * Value) * ParseTree;
  (** [applyQuery(query, records)] *)
  applyQuery : Query -> list Obj -> list Obj
}.

(** ** The program: [plugs/tasks/task.ts] *)

Section Tasks.
Context `{Library}.

(** The deadline glyph, U+1F4C5. *)
Definition deadlineGlyph : string := "📅".

(** [getDeadline], lines 38-40. *)
Definition getDeadline (deadlineNode : ParseTree) : Outcome string :=
  text ← childText deadlineNode 0;
  mret (JS.removeFirstWithSpace deadlineGlyph text).

Definition completeStates : list string := ["x"; "X"].
Definition incompleteStates : list string := [" "].

(** The [Map<string, number>] of line 47, in insertion order. *)
Definition mapGet (k : string) (m : list (string * Z)) : option Z :=
  snd <$> List.find (fun e => String.eqb (fst e) k) m.

Fixpoint mapSet (k : string) (v : Z) (m : list (string * Z)) : list (string * Z) :=
  match m with
  | [] => [(k, v)]
  | (k', v') :: rest =>
      if String.eqb k' k then (k, v) :: rest else (k', v') :: mapSet k v rest
  end.

(** The variables of [indexTasks] that its traversal callback updates. *)
Record Extraction : Type := mkExtraction {
  tasks : list (string * Obj);
  taskStates : list (string * Z);
  allAttributes : Obj
}.

(** Lines 56-62: the counter of a non-binary state goes up by one. *)
Definition countState (state : string) (counts : list (string * Z))
  : list (string * Z) :=
  if (negb (JS.includes incompleteStates state)
      && negb (JS.includes completeStates state))%bool
  then match mapGet state counts with
       | None => mapSet state 1 counts
       | Some c => mapSet state (c + 1) counts
       end
  else counts.

(** Lines 72-87: the callback given to [replaceNodesMatching]; its
    captured variable is the task record. *)
Definition captureDeadlineAndTags (tree : ParseTree) (task : Obj)
  : Outcome (Subst * Obj) :=
  if hasType "DeadlineDate" tree then
    deadline ← getDeadline tree;
    mret (Remove, <["deadline" := VStr deadline]> task)
  else if hasType "Hashtag" tree then
    let tags := match task !! "tags" with
                | Some (VList l) => l
                | _ => []
                end in
    text ← childText tree 0;
    mret (Continue, <["tags" := VList (tags ++ [JS.dropFirst text])]> task)
  else mret (Continue, task).

(** Lines 91-94: [obj[key] = value] for every extracted attribute. *)
Definition assignAll (attributes : list (string * Value)) (obj : Obj) : Obj :=
  foldl (fun o '(k, v) => <[k := v]> o) obj attributes.

(** Lines 51-108: the callback given to [traverseTreeAsync]. *)
Definition visitTask (name : string) (n : ParseTree) (ctx : Context)
    (acc : Extraction) : Outcome (bool * Extraction) :=
  if negb (hasType "Task" n) then mret (false, acc)
  else
    marker ← childAt n 0;
    marker ← assertPresent marker;
    state ← childText marker 1;
    let counts := countState state (taskStates acc) in
    let complete := JS.includes completeStates state in
    let task : Obj :=
      <["state" := VStr state]>
        (<["done" := VBool complete]> (<["name" := VStr ""]> ∅)) in
    let n1 := rewritePageRefs n name in
    '(n2, task) ← replaceNodesMatching captureDeadlineAndTags n1 task;
    let '(extractedAttributes, n3) := extractAttributes n2 true in
    let task := assignAll extractedAttributes task in
    let attrs := assignAll extractedAttributes (allAttributes acc) in
    children ← assertPresent (nodeChildren n3);
    let task :=
      <["name" := VStr (JS.trim (JS.join (List.map renderToText (drop 1 children))))]>
        task in
    '(parent, taskIndex) ← assertPresent ctx;
    siblings ← assertPresent (nodeChildren parent);
    let nestedItems := drop (S taskIndex) siblings in
    let task :=
      if (0 <? Z.of_nat (List.length nestedItems))
      then <["nested" := VStr (JS.trim (JS.join (List.map renderToText nestedItems)))]>
             task
      else task in
    mret (true,
          mkExtraction
            (tasks acc ++ [("task:" +:+ JS.numToString (nodeFrom n3), task)])
            counts attrs).

(** Lines 45-108: what one pass extracts from a document. *)
Definition extractTasks (name : string) (tree : ParseTree) : Outcome Extraction :=
  traverseTree (visitTask name) None (removeQueries tree)
    (mkExtraction [] [] ∅).

(** [indexTasks], lines 45-120. *)
Definition indexTasks (name : string) (tree : ParseTree) : M unit :=
  found ← liftOutcome (extractTasks name tree);
  Syscall.batchSet name ((fun '(k, task) => (k, STask task)) <$> tasks found);;
  Syscall.indexAttributes name (allAttributes found) "task";;
  Syscall.batchSet name
    ((fun '(state, count) => ("taskState:" +:+ state, SCount count))
       <$> taskStates found).

(** [s.key.split(":")[1]], lines 149 and 328.  Every key that
    [queryPrefix] returns for a prefix ending in a colon has this
    segment. *)
Definition keySegment (k : string) : string :=
  nth 1 (JS.split ":" k) "".

(** Lines 149-150: the known states, distinct and sorted. *)
Definition knownStates (allStates : list Entry) : list string :=
  JS.sort (JS.dedupe ((fun s => keySegment (key s)) <$> allStates)).

(** Lines 140-161: the state to change to; [None] when the function
    returns at line 155. *)
Definition chooseNextState (stateText : string) : M (option string) :=
  if JS.includes completeStates stateText then mret (Some " ")
  else if JS.includes incompleteStates stateText then mret (Some "x")
  else
    allStates ← Syscall.queryPrefix "taskState:";
    let states := knownStates allStates in
    match JS.indexOf stateText states with
    | None => Syscall.consoleError "Unknown state";; mret None
    | Some currentStateIndex =>
        let nextStateIndex :=
          ((currentStateIndex + 1) `mod` List.length states)%nat in
        mret (Some (nth nextStateIndex states ""))
    end.

(** How one round of the loop of line 174 ends: the loop goes on, or the
    function returns. *)
Inductive Flow : Type :=
| Next
| Return.

(** [node.text = s], as [renderToText] sees the node afterwards. *)
Definition setText (s : string) (t : ParseTree) : ParseTree :=
  TextNode (nodeFrom t) (nodeTo t) s.

Definition staleMessage : string := "Reference not a task marker, out of date?".

(** Lines 175-219: the body of the loop, for one wiki link. *)
Definition propagateTo (pageName stateText changeTo : string)
    (wikiLink : ParseTree) : M Flow :=
  ref ← liftOutcome (childText wikiLink 0);
  if JS.includesChar "@" ref then
    match JS.split "@" ref with
    | page :: posS :: _ =>
        let pos := JS.toNumber posS in
        let start := JS.num_add pos 1 in
        if String.eqb page pageName then
          editorText ← Syscall.getText;
          let stop := JS.num_add start (Z.of_nat (String.length stateText)) in
          let targetText := JS.substring editorText start stop in
          if negb (String.eqb targetText stateText) then
            Syscall.consoleError staleMessage;; mret Return
          else
            Syscall.dispatch start stop changeTo;; mret Next
        else
          text ← Syscall.readPage page;
          let referenceMdTree := parseMarkdown text in
          match nodeAtPos referenceMdTree start with
          | Some (p, taskStateNode) =>
              if negb (hasType "TaskState" taskStateNode) then
                Syscall.consoleError staleMessage;; mret Return
              else
                target ← liftOutcome (childAt taskStateNode 1);
                _ ← liftOutcome (assertPresent target);
                let text := renderToText
                              (updateAt referenceMdTree (p ++ [1%nat])%list (setText changeTo)) in
                Syscall.writePage page text;;
                Syscall.scheduleFileSync (page +:+ ".md");;
                mret Next
          | None => Syscall.consoleError staleMessage;; mret Return
          end
    | _ => mret Next
    end
  else mret Next.

(** Lines 174-220: the loop over the wiki links; it answers whether it
    ran to its end or the function returned from inside it. *)
Fixpoint propagateAll (pageName stateText changeTo : string)
    (parentWikiLinks : list ParseTree) : M Flow :=
  match parentWikiLinks with
  | [] => mret Next
  | wikiLink :: rest =>
      flow ← propagateTo pageName stateText changeTo wikiLink;
      match flow with
      | Next => propagateAll pageName stateText changeTo rest
      | Return => mret Return
      end
  end.

(** [cycleTaskState], lines 136-221.  The node is given by the tree it
    belongs to and its path there. *)
Definition cycleTaskState (pageName : string) (root : ParseTree) (p : Path)
  : M unit :=
  node ← liftOutcome (assertPresent (subtree root p));
  stateText ← liftOutcome (childText node 1);
  next ← chooseNextState stateText;
  match next with
  | None => mret tt
  | Some changeTo =>
      marker ← liftOutcome (c ← childAt node 1; assertPresent c);
      Syscall.dispatch (Some (nodeFrom marker)) (Some (nodeTo marker)) changeTo;;
      parent ← liftOutcome (assertPresent (parentPath p ≫= subtree root));
      _ ← propagateAll pageName stateText changeTo
            (collectNodesMatching (hasType "WikiLinkPage") parent);
      mret tt
  end.

(** [taskCycleAtPos], lines 223-237. *)
Definition taskCycleAtPos (pageName : string) (pos : JS.JsNum) : M unit :=
  text ← Syscall.getText;
  let mdTree := parseMarkdown text in
  match nodeAtPos mdTree pos with
  | None => mret tt
  | Some (p, node) =>
      '(p, node) ←
        (if hasType "TaskMarker" node
         then liftOutcome (pp ← assertPresent (parentPath p);
                           parent ← assertPresent (subtree mdTree pp);
                           mret (pp, parent))
         else mret (p, node));
      if hasType "TaskState" node then cycleTaskState pageName mdTree p
      else mret tt
  end.

(** [ClickEvent] of [$sb/app_event.ts], the fields that are read. *)
Record ClickEvent : Type := mkClickEvent {
  clickPage : string;
  clickPos : JS.JsNum;
  altKey : bool
}.

(** [taskToggle], lines 122-127. *)
Definition taskToggle (event : ClickEvent) : M unit :=
  if altKey event then mret tt
  else taskCycleAtPos (clickPage event) (clickPos event).

(** [{...value}]: the own properties of a stored value; a number has
    none. *)
Definition spread (v : Stored) : Obj :=
  match v with
  | STask task => task
  | SCount _ => ∅
  end.

(** Lines 327-334: one decorated task. *)
Definition decorate (e : Entry) : Obj :=
  let pos := keySegment (key e) in
  <["pos" := VNum (JS.toNumber pos)]> (<["page" := VStr (page e)]> (spread (value e))).

(** [queryProvider], lines 322-336. *)
Definition queryProvider (query : Query) : M (list Obj) :=
  entries ← Syscall.queryPrefix "task:";
  mret (applyQuery query (decorate <$> entries)).

End Tasks.

(** ** A concrete library, for running the program on documents *)

Module Demo.

(** A document as nested pieces of text; [place] gives every piece the
    offsets at which it lies. *)
#[warnings="-register-all"] Inductive Shape : Type :=
| T (text : string)
| N (type : string) (children : list Shape).

Fixpoint width (sh : Shape) : Z :=
  match sh with
  | T s => Z.of_nat (String.length s)
  | N _ cs => foldr Z.add 0 (List.map width cs)
  end.

Definition placeChildren (place : Z -> Shape -> ParseTree)
  : Z -> list Shape -> list ParseTree :=
  fix each (a : Z) (l : list Shape) :=
    match l with
    | [] => []
    | c :: rest => place a c :: each (a + width c) rest
    end.

Fixpoint place (a : Z) (sh : Shape) : ParseTree :=
  match sh with
  | T s => TextNode a (a + width sh) s
  | N ty cs => Node ty a (a + width sh) (placeChildren place a cs)
  end.

(** A one-item list: [- [state] ...content]. *)
Definition taskLine (state : string) (content : list Shape) : Shape :=
  N "Document"
    [N "BulletList"
       [N "ListItem"
          [N "ListMark" [T "-"]; T " ";
           N "Task"
             (N "TaskState"
                [N "TaskMarker" [T "["]; T state; N "TaskMarker" [T "]"]]
              :: content)]]].

Definition wikiLink (ref : string) : Shape :=
  N "WikiLink"
    [N "WikiLinkMark" [T "[["]; N "WikiLinkPage" [T ref]; N "WikiLinkMark" [T "]]"]].

Definition attribute (name value : string) : Shape :=
  N "Attribute"
    [N "AttributeName" [T name]; N "AttributeColon" [T "::"]; T " ";
     N "AttributeValue" [T value]].

(** Modelled from the spec: the markdown parser is external; this one
    knows the documents listed in [known] and takes any other text for a
    single paragraph. *)
Definition parseWith (known : list Shape) (text : string) : ParseTree :=
  match List.find (fun sh => String.eqb (renderToText (place 0 sh)) text) known with
  | Some sh => place 0 sh
  | None => place 0 (N "Document" [N "Paragraph" [T text]])
  end.

(** Modelled from the spec: [extractAttributes] of [$sb/lib/attribute.ts],
    which is not among the sources; it pulls the [name:: value] pairs out
    of a node and, when [clean] is set, removes them from the tree.
    Nested list items are left alone.  A value reads as a boolean, an
    integer or a string. *)
Definition readValue (s : string) : Value :=
  if String.eqb s "true" then VBool true
  else if String.eqb s "false" then VBool false
  else match s, JS.toNumber s with
       | String _ _, Some z => VNum (Some z)
       | _, _ => VStr s
       end.

Definition findNodeOfType (ty : string) (t : ParseTree) : option ParseTree :=
  head (collectNodesMatching (hasType ty) t).

Definition pullAttribute (clean : bool) (n : ParseTree)
    (found : list (string * Value)) : Outcome (Subst * list (string * Value)) :=
  if hasType "ListItem" n then mret (Replace n, found)
  else if hasType "Attribute" n then
    let after := if clean then Remove else Replace n in
    match findNodeOfType "AttributeName" n, findNodeOfType "AttributeValue" n with
    | Some nameNode, Some valueNode =>
        name ← childText nameNode 0;
        val ← childText valueNode 0;
        mret (after, (found ++ [(name, readValue val)])%list)
    | _, _ => mret (after, found)
    end
  else mret (Continue, found).

Definition extractAttributesDemo (n : ParseTree) (clean : bool)
  : list (string * Value) * ParseTree :=
  match replaceNodesMatching (pullAttribute clean) n [] with
  | Done (n', found) => (found, n')
  | Threw => ([], n)
  end.

(** The library over a set of known documents: no query blocks, no
    page-local links, the identity query. *)
Definition library (known : list Shape) : Library := {|
  Query := unit;
  parseMarkdown := parseWith known;
  removeQueries := fun tree => tree;
  rewritePageRefs := fun n _ => n;
  extractAttributes := extractAttributesDemo;
  applyQuery := fun _ records => records
|}.

End Demo.

(** ** Vocabulary of the properties *)

Section Vocabulary.
Context `{Library}.

(** The task nodes a pass visits, in document order: the traversal does
    not look for tasks below a task. *)
Definition taskNodes (tree : ParseTree) : list ParseTree :=
  collectNodesMatching (hasType "Task") tree.

(** Line 55: the state token of a task node. *)
Definition stateOf (n : ParseTree) : Outcome string :=
  marker ← childAt n 0;
  marker ← assertPresent marker;
  childText marker 1.

(** Lines 64-68: the record a task starts from. *)
Definition blankTask (state : string) : Obj :=
  <["state" := VStr state]>
    (<["done" := VBool (JS.includes completeStates state)]> (<["name" := VStr ""]> ∅)).

(** Lines 70-90: the attributes extracted for a task node, and the node
    as these lines leave it. *)
Definition prepared (name : string) (n : ParseTree)
  : Outcome (list (string * Value) * ParseTree) :=
  state ← stateOf n;
  '(n2, _) ← replaceNodesMatching captureDeadlineAndTags
               (rewritePageRefs n name) (blankTask state);
  mret (extractAttributes n2 true).

(** The binary tokens of the glossary. *)
Definition binaryStates : list string := [" "; "x"; "X"].

(** The state a cycle changes a token to, if it changes it. *)
Definition nextOf (w : World) (stateText : string) : option string :=
  match outcome (chooseNextState stateText w) with
  | Done next => next
  | Threw => None
  end.

Definition cycleTwice (w : World) (stateText : string) : option string :=
  nextOf w stateText ≫= nextOf w.

(** The frequency table as section 3 of the specification words it: a
    record ["taskState:" + token -> count]; the token of a key is what
    follows that prefix. *)
Definition tokenOfKey (k : string) : option string :=
  JS.stripPrefix "taskState:" k.

Definition frequencyTokens (w : World) : list string :=
  JS.sort (JS.dedupe (omap (fun e => tokenOfKey (key e)) (Syscall.entriesOf (indexStore w)))).

(** The successor as section 4.3 words it: the element after the current
    token in the sorted distinct tokens of the table, cyclically. *)
Definition cyclesThroughTable (w : World) (stateText : string) : Prop :=
  forall i : nat,
    JS.indexOf stateText (frequencyTokens w) = Some i ->
    nextOf w stateText
    = Some (nth ((i + 1) `mod` List.length (frequencyTokens w))%nat
              (frequencyTokens w) "").

(** The order of [Array.sort] on strings. *)
Definition lexLe (a b : string) : Prop := JS.leb a b = true.

(** No token of the frequency table holds a colon. *)
Definition colonFreeTable (w : World) : bool :=
  forallb (fun e => match tokenOfKey (key e) with
                    | Some token => negb (JS.includesChar ":" token)
                    | None => true
                    end)
    (Syscall.entriesOf (indexStore w)).

(** The syscalls that change a buffer or a page. *)
Definition isWrite (e : Event) : bool :=
  match e with
  | EvDispatch _ _ _ | EvWritePage _ _ => true
  | _ => false
  end.



(** The check of lines 206-207 on a stored page: the node at [pos + 1]
    of its parse tree, when that is a task state. *)
Definition storedTaskStateAt (page : string) (pos : JS.JsNum) (w : World)
  : option (Path * ParseTree) :=
  text ← pages w !! page;
  '(p, n) ← nodeAtPos (parseMarkdown text) (JS.num_add pos 1);
  if hasType "TaskState" n then Some (p, n) else None.


(** The loop as section 4.4 words it: a stale reference is reported and
    skipped, and the next one is processed. *)
Fixpoint propagateAllSkipping (pageName stateText changeTo : string)
    (parentWikiLinks : list ParseTree) : M unit :=
  match parentWikiLinks with
  | [] => mret tt
  | wikiLink :: rest =>
      _ ← propagateTo pageName stateText changeTo wikiLink;
      propagateAllSkipping pageName stateText changeTo rest
  end.

Definition continuesPastFailure (pageName stateText changeTo : string)
    (parentWikiLinks : list ParseTree) (w : World) : Prop :=
  final (propagateAll pageName stateText changeTo parentWikiLinks w)
  = final (propagateAllSkipping pageName stateText changeTo parentWikiLinks w)
  /\ events (propagateAll pageName stateText changeTo parentWikiLinks w)
     = events (propagateAllSkipping pageName stateText changeTo parentWikiLinks w).

(** What the entry of a task node owes to the node: its state token, a
    key made of the offset at which the node starts, and, for every
    field that neither the extractor sets afterwards nor an extracted
    attribute names, the value the record started with. *)
Definition recordOf (name : string) (n : ParseTree) (state : string)
    (entry : string * Obj) : Prop :=
  stateOf n = Done state
  /\ exists attrs n3,
       prepared name n = Done (attrs, n3)
       /\ entry.1 = "task:" +:+ JS.numToString (nodeFrom n3)
       /\ forall field,
            ~ In field ["name"; "deadline"; "tags"; "nested"] ->
            ~ In field (fst <$> attrs) ->
            entry.2 !! field = blankTask state !! field.

(** The invariant of section 3 as it is worded: the [done] of a record
    is true exactly when the state token of its task is [x] or [X]. *)
Definition doneIffComplete (name : string) (tree : ParseTree) : Prop :=
  forall found,
    extractTasks name tree = Done found ->
    Forall2 (fun n record =>
               exists state,
                 stateOf n = Done state
                 /\ (record.2 !! "done" = Some (VBool true)
                     <-> state = "x" \/ state = "X"))
      (taskNodes (removeQueries tree)) (tasks found).

(** No record of a pass holds a [page] or a [pos]. *)
Definition storesNoPosition (name : string) (tree : ParseTree) : Prop :=
  forall found,
    extractTasks name tree = Done found ->
    Forall (fun record : string * Obj =>
              record.2 !! "page" = None /\ record.2 !! "pos" = None)
      (tasks found).

(** The entries of a batch under the keys of the store. *)
Definition scoped (name : string) (entries : list (string * Stored))
  : list (string * string * Stored) :=
  (fun '(k, v) => ((name, k), v)) <$> entries.

(** The counter a pass holds for a token after the given tokens. *)
Definition countAll (tokens : list string) : list (string * Z) :=
  foldl (fun counts state => countState state counts) [] tokens.

Definition occurrences (token : string) (tokens : list string) : Z :=
  Z.of_nat (List.length (List.filter (String.eqb token) tokens)).

End Vocabulary.

(** ** Documents and worlds the properties are tried on *)

Module Scenario.
Import Demo.

(** [- [ ] Buy milk 📅 2024-01-05 #errand prio:: high] *)
Definition milk : Shape :=
  taskLine " "
    [T " Buy milk "; N "DeadlineDate" [T "📅 2024-01-05"]; T " ";
     N "Hashtag" [T "#errand"]; T " "; attribute "prio" "high"].

Definition milkLine : string :=
  "- [ ] Buy milk 📅 2024-01-05 #errand prio:: high".

(** The record the specification expects for [milk]. *)
Definition milkExpected : Obj :=
  <["done" := VBool false]> (<["state" := VStr " "]>
  (<["deadline" := VStr "2024-01-05"]> (<["tags" := VList ["errand"]]>
  (<["prio" := VStr "high"]> (<["name" := VStr "Buy milk #errand"]> ∅))))).

(** The record the extractor produces for [milk]: the two blanks around
    the removed deadline both stay in the name. *)
Definition milkExtracted : Obj :=
  <["done" := VBool false]> (<["state" := VStr " "]>
  (<["deadline" := VStr "2024-01-05"]> (<["tags" := VList ["errand"]]>
  (<["prio" := VStr "high"]> (<["name" := VStr "Buy milk  #errand"]> ∅))))).

(** [- [x] Pay rent done:: false] and [- [ ] Pay rent page:: Archive] *)
Definition rentDone : Shape :=
  taskLine "x" [T " Pay rent "; attribute "done" "false"].

Definition rentPage : Shape :=
  taskLine " " [T " Pay rent "; attribute "page" "Archive"].

(** The open page [Home]: [- [x] [[Other@2]] call]; the stored page
    [Other]: [- [!] call]. *)
Definition home : Shape :=
  taskLine "x" [T " "; wikiLink "Other@2"; T " call"].

Definition other : Shape :=
  taskLine "!" [T " call"].

(** The open page [Home] with two backlinks, the first into [Home]
    itself at an offset past its end, the second to the stored page
    [Notes]: [- [x] call]. *)
Definition homeTwoLinks : Shape :=
  taskLine "x" [T " "; wikiLink "Home@90"; T " "; wikiLink "Notes@2"; T " call"].

Definition notes : Shape :=
  taskLine "x" [T " call"].

(** [- [?] ship] *)
Definition plans : Shape := taskLine "?" [T " ship"].

Definition known : list Shape :=
  [milk; rentDone; rentPage; home; other; homeTwoLinks; notes; plans].

Definition lib : Library := library known.

Definition text (sh : Shape) : string := renderToText (place 0 sh).

(** The path of the task state in a [taskLine], and of its task. *)
Definition statePath : Path := [0; 0; 2; 0]%nat.
Definition taskPath : Path := [0; 0; 2]%nat.

Definition linksOf (sh : Shape) : list ParseTree :=
  match subtree (place 0 sh) taskPath with
  | Some task => collectNodesMatching (hasType "WikiLinkPage") task
  | None => []
  end.

Definition homeWorld : World :=
  mkWorld (text home) {[ "Other" := text other ]} ∅.

Definition twoLinksWorld : World :=
  mkWorld (text homeTwoLinks) {[ "Notes" := text notes ]} ∅.

(** An index with the custom states [-], [/] and [!] counted on two
    pages, next to a task record. *)
Definition customStore : gmap (string * string) Stored :=
  <[("Plans", "taskState:-") := SCount 2]>
  (<[("Plans", "taskState:/") := SCount 1]>
  (<[("Inbox", "taskState:!") := SCount 1]>
  (<[("Inbox", "taskState:-") := SCount 3]>
  (<[("Inbox", "task:2") := STask milkExtracted]> ∅)))).

Definition customWorld : World := mkWorld "" ∅ customStore.

(** An index in which the state [a:b] was counted once. *)
Definition colonWorld : World :=
  mkWorld "" ∅ {[ ("Plans", "taskState:a:b") := SCount 1 ]}.

Definition emptyWorld : World := mkWorld "" ∅ ∅.

(** The open page [Plans], whose state [?] no page counted. *)
Definition plansWorld : World := mkWorld (text plans) ∅ customStore.

(** The page [Roadmap], [- [a:b] ship], open and indexed by one pass
    over an empty index; and the page [Draft], [- [a] ship], open over
    the index that pass left. *)
Definition roadmap : Shape := taskLine "a:b" [T " ship"].

Definition roadmapWorld : World :=
  final (@indexTasks lib "Roadmap" (place 0 roadmap) (mkWorld (text roadmap) ∅ ∅)).

Definition draft : Shape := taskLine "a" [T " ship"].

Definition draftWorld : World :=
  mkWorld (text draft) ∅ (indexStore roadmapWorld).

(** The page [Bills], [- [ ] Pay rent page:: Archive], indexed by one
    pass over an empty index. *)
Definition billsWorld : World :=
  final (@indexTasks lib "Bills" (place 0 rentPage) (mkWorld (text rentPage) ∅ ∅)).

End Scenario.

(** ** The program, continued: the deadline commands of [task.ts] *)

Section Deadlines.

(** Lines 298-308 of [postponeCommand]: the number of days the [switch]
    adds to the date, from the name of the chosen option and the
    weekday [d.getDay()] of the date, [0] for a Sunday to [6] for a
    Saturday; an option of another name leaves the date as it is. *)
Definition postponeDays (option : string) (day : Z) : Z :=
  if String.eqb option "a day" then 1
  else if String.eqb option "a week" then 7
  else if String.eqb option "following Monday" then
    let r := Z.rem (7 - day + 1) 7 in
    if r =? 0 then 7 else r
  else 0.

(** Line 314 of [postponeCommand]: the text written over the deadline
    node, from the rendering of the new date. *)
Definition deadlineText (date : string) : string :=
  deadlineGlyph +:+ " " +:+ date.

End Deadlines.

(** ** The program: [plugos/hooks/mq.ts] *)

Module MQ.

(** [MQSubscription], lines 7-11. *)
Record MQSubscription : Type := mkMQSubscription {
  queue : string;
  batchSize : option Z;
  autoAck : option bool
}.

(** [MQHookT], lines 13-15: what a function definition of a manifest
    holds for this hook. *)
Record FunctionDef : Type := mkFunctionDef {
  mqSubscriptions : option (list MQSubscription)
}.

(** [Manifest] of [../types.ts], the field that is read: the functions,
    in the order of [Object.entries]. *)
Record Manifest : Type := mkManifest {
  functions : list (string * FunctionDef)
}.

(** A loaded plug of [../system.ts], the fields that are read. *)
Record Plug : Type := mkPlug {
  plugName : string;
  manifest : option Manifest
}.

(** [Message] of [$sb/types.ts], the field that is read. *)
Record Message : Type := mkMessage {
  id : string
}.

(** The callback of lines 67-85 is a closure over the plug, the name of
    the function, the full queue name and the subscription. *)
Record Callback : Type := mkCallback {
  ofPlug : string;
  ofFunction : string;
  onQueue : string;
  acks : option bool
}.

(** An unsubscribe function, as [mq.subscribe] returns one per call: the
    number of the call that returned it. *)
Definition Handle := nat.

(** The calls the hook makes on the queue, the plugs and the console. *)
Inductive Call : Type :=
| Subscribe (queue : string) (batchSize : option Z) (callback : Callback)
| Unsubscribe (handle : Handle)
| Invoke (plug function : string) (messages : list Message)
| BatchAck (queue : string) (ids : list string)
| ConsoleError (queue function : string) (messages : list Message).

(** The hook and the queue it talks to: the field [subscriptions] of
    line 18, the number of [mq.subscribe] calls answered so far, and the
    calls made. *)
Record Hook : Type := mkHook {
  subscriptions : list Handle;
  answered : nat;
  calls : list Call
}.

Definition fresh : Hook := mkHook [] 0 [].

(** [!x] on a string. *)
Definition isEmpty (s : string) : bool := String.eqb s "".

(** [!x] on an optional boolean. *)
Definition truthy (b : option bool) : bool :=
  match b with Some true => true | _ => false end.

Section Hook.

(** [fullQueueName] of [../lib/mq_util.ts]. *)
Variable fullQueueName : string -> string -> string.

(** [stop], lines 37-41. *)
Definition stop (h : Hook) : Hook :=
  mkHook [] (answered h) (calls h ++ (Unsubscribe <$> subscriptions h)).

(** Lines 59-87: one subscription of one function of one plug. *)
Definition subscribe (plug : Plug) (name : string)
    (subscriptionDef : MQSubscription) (h : Hook) : Hook :=
  let queue := fullQueueName (plugName plug) (queue subscriptionDef) in
  mkHook (subscriptions h ++ [answered h]) (S (answered h))
    (calls h ++ [Subscribe queue (batchSize subscriptionDef)
                   (mkCallback (plugName plug) name queue (autoAck subscriptionDef))]).

(** Lines 49-89: the functions of one plug. *)
Definition subscribeFunctions (plug : Plug) (m : Manifest) (h : Hook) : Hook :=
  foldl (fun h '(name, functionDef) =>
           match mqSubscriptions functionDef with
           | None => h
           | Some subscriptions =>
               foldl (fun h subscriptionDef => subscribe plug name subscriptionDef h)
                 h subscriptions
           end)
    h (functions m).

(** [reloadQueues], lines 43-91, over [system.loadedPlugs.values()]. *)
Definition reloadQueues (loadedPlugs : list Plug) (h : Hook) : Hook :=
  foldl (fun h plug =>
           match manifest plug with
           | None => h
           | Some m => subscribeFunctions plug m h
           end)
    (stop h) loadedPlugs.

(** The callback of lines 67-85 on a batch of messages; whether
    [plug.invoke] and [mq.batchAck] return or throw is the plug's and
    the queue's doing.  The result is how the callback ends, with the
    calls it made. *)
Definition deliver (callback : Callback) (messages : list Message)
    (invoked acked : Outcome unit) : Outcome unit * list Call :=
  let invoke := Invoke (ofPlug callback) (ofFunction callback) messages in
  let report := ConsoleError (onQueue callback) (ofFunction callback) messages in
  match invoked with
  | Threw => (Done tt, [invoke; report])
  | Done _ =>
      if truthy (acks callback) then
        let ack := BatchAck (onQueue callback) (id <$> messages) in
        match acked with
        | Threw => (Done tt, [invoke; ack; report])
        | Done _ => (Done tt, [invoke; ack])
        end
      else (Done tt, [invoke])
  end.

(** What the life of a hook is made of: [apply] reloads, and so does
    every plug that is loaded or unloaded afterwards (lines 23-35);
    [stop] may be called in between. *)
Inductive Step : Type :=
| Reload (loadedPlugs : list Plug)
| Stop.

Definition step (h : Hook) (s : Step) : Hook :=
  match s with
  | Reload loadedPlugs => reloadQueues loadedPlugs h
  | Stop => stop h
  end.

Definition run (steps : list Step) : Hook := foldl step fresh steps.

End Hook.

(** [validateManifest], lines 93-106. *)
Definition missingQueue : string := "Missing queue name for mqSubscription".

Definition validateManifest (m : Manifest) : list string :=
  foldl (fun errors '(_, functionDef) =>
           match mqSubscriptions functionDef with
           | None => errors
           | Some subscriptions =>
               foldl (fun errors subscriptionDef =>
                        if isEmpty (queue subscriptionDef)
                        then (errors ++ [missingQueue])%list
                        else errors)
                 errors subscriptions
           end)
    [] (functions m).

End MQ.

(** ** Vocabulary of the further properties *)

Section FurtherVocabulary.

(** A wiki link whose text holds an [@]: the ones line 176 lets
    through.  A link without a text makes the loop throw. *)
Definition isBacklink (wikiLink : ParseTree) : bool :=
  match childText wikiLink 0 with
  | Done ref => JS.includesChar "@" ref
  | Threw => true
  end.

(** The token after [k] cycles. *)
Definition cycleTimes (w : World) (k : nat) (stateText : string) : option string :=
  Nat.iter k (fun token => token ≫= nextOf w) (Some stateText).

(** The known states of a world, as line 148-150 compute them. *)
Definition statesOf (w : World) : list string :=
  knownStates (Syscall.entriesWithPrefix "taskState:" w).

(** The subscriptions of a manifest, and of the loaded plugs: every
    subscription of every function, with its plug and its function. *)
Definition subscriptionsOf (m : MQ.Manifest) : list (string * MQ.MQSubscription) :=
  '(name, functionDef) ← MQ.functions m;
  (fun subscriptionDef => (name, subscriptionDef))
    <$> default [] (MQ.mqSubscriptions functionDef).

Definition wanted (loadedPlugs : list MQ.Plug)
  : list (MQ.Plug * string * MQ.MQSubscription) :=
  plug ← loadedPlugs;
  (fun '(name, subscriptionDef) => (plug, name, subscriptionDef))
    <$> match MQ.manifest plug with
        | Some m => subscriptionsOf m
        | None => []
        end.

(** The [mq.subscribe] call of lines 61-87 for one wanted subscription. *)
Definition subscribeCall (fullQueueName : string -> string -> string)
    (item : MQ.Plug * string * MQ.MQSubscription) : MQ.Call :=
  let '(plug, name, subscriptionDef) := item in
  let queue := fullQueueName (MQ.plugName plug) (MQ.queue subscriptionDef) in
  MQ.Subscribe queue (MQ.batchSize subscriptionDef)
    (MQ.mkCallback (MQ.plugName plug) name queue (MQ.autoAck subscriptionDef)).

(** A hook after it subscribed to the given subscriptions, one call
    each. *)
Definition subscribed (fullQueueName : string -> string -> string)
    (items : list (MQ.Plug * string * MQ.MQSubscription)) (h : MQ.Hook) : MQ.Hook :=
  MQ.mkHook
    (MQ.subscriptions h ++ seq (MQ.answered h) (List.length items))
    (MQ.answered h + List.length items)
    (MQ.calls h ++ (subscribeCall fullQueueName <$> items)).

(** The number of [mq.subscribe] calls among the calls, and the
    unsubscribe functions called, in the order of the calls. *)
Definition issued (calls : list MQ.Call) : nat :=
  List.length
    (List.filter (fun c => match c with MQ.Subscribe _ _ _ => true | _ => false end)
       calls).

Definition released (calls : list MQ.Call) : list MQ.Handle :=
  omap (fun c => match c with MQ.Unsubscribe handle => Some handle | _ => None end)
    calls.

End FurtherVocabulary.

(** * Properties *)

(** ** Runs of the engine on the scenarios *)

(** A click on the state of [Home] toggles it in the buffer, and rewrites
    the stored page [Other] through the backlink. *)
Example click_on_home :
  @taskToggle Scenario.lib (mkClickEvent "Home" (Some 3) false) Scenario.homeWorld
  = mkResult (Done tt)
      (mkWorld "- [ ] [[Other@2]] call" {[ "Other" := "- [ ] call" ]} ∅)
      [EvGetText; EvDispatch (Some 3) (Some 4) " "; EvReadPage "Other";
       EvWritePage "Other" "- [ ] call"; EvScheduleFileSync "Other.md"].
Proof. vm_compute. reflexivity. Qed.

(** With a stale first backlink, the second is not followed. *)
Example click_on_home_with_two_links :
  @taskToggle Scenario.lib (mkClickEvent "Home" (Some 3) false) Scenario.twoLinksWorld
  = mkResult (Done tt)
      (mkWorld "- [ ] [[Home@90]] [[Notes@2]] call" {[ "Notes" := "- [x] call" ]} ∅)
      [EvGetText; EvDispatch (Some 3) (Some 4) " "; EvGetText;
       EvConsoleError staleMessage].
Proof. vm_compute. reflexivity. Qed.

(** The documents of the scenarios read as their lines. *)
Example scenario_texts :
  Scenario.text Scenario.home = "- [x] [[Other@2]] call"
  /\ Scenario.text Scenario.other = "- [!] call"
  /\ Scenario.text Scenario.homeTwoLinks = "- [x] [[Home@90]] [[Notes@2]] call"
  /\ Scenario.text Scenario.notes = "- [x] call"
  /\ Scenario.text Scenario.rentDone = "- [x] Pay rent done:: false"
  /\ Scenario.text Scenario.rentPage = "- [ ] Pay rent page:: Archive"
  /\ Scenario.text Scenario.plans = "- [?] ship".
Proof. repeat split. Qed.

(** The documents of the failing inputs, and the index one pass over
    [Roadmap] leaves. *)
Example failing_input_texts :
  Scenario.text Scenario.roadmap = "- [a:b] ship"
  /\ Scenario.text Scenario.draft = "- [a] ship"
  /\ Syscall.entriesWithPrefix "taskState:" Scenario.roadmapWorld
     = [mkEntry "taskState:a:b" "Roadmap" (SCount 1)].
Proof. repeat split. Qed.

(** Strings are ordered by their UTF-16 code units: the astral [🔥]
    (units [D83D DD25]) comes before the fullwidth [？] (unit [FF1F]). *)
Example sort_by_code_units :
  JS.sort ["？"; "🔥"; "b"; "a"] = ["a"; "b"; "🔥"; "？"].
Proof. vm_compute. reflexivity. Qed.

(** White space beyond ASCII is trimmed: a no-break space (U+00A0) in
    front, an ideographic space (U+3000) and a line feed behind. *)
Example trim_white_space :
  JS.trim (String (ascii_of_nat 194) (String (ascii_of_nat 160) " a b")
           +:+ String (ascii_of_nat 227) (String (ascii_of_nat 128)
                 (String (ascii_of_nat 128) (String (ascii_of_nat 10) ""))))
  = "a b".
Proof. vm_compute. reflexivity. Qed.

(** ** Running the monad *)

Lemma bind_run {A B} (m : M A) (f : A -> M B) (w : World) :
  (m ≫= f) w
  = match outcome (m w) with
    | Done a => mkResult (outcome (f a (final (m w)))) (final (f a (final (m w))))
                  (events (m w) ++ events (f a (final (m w))))
    | Threw => mkResult Threw (final (m w)) (events (m w))
    end.
Proof. reflexivity. Qed.

Lemma ret_run {A} (a : A) (w : World) : (mret a : M A) w = mkResult (Done a) w [].
Proof. reflexivity. Qed.

Lemma lift_run {A} (o : Outcome A) (w : World) : liftOutcome o w = mkResult o w [].
Proof. reflexivity. Qed.

Lemma result_eta {A} (r : Result A) : mkResult (outcome r) (final r) (events r) = r.
Proof. by destruct r. Qed.

Ltac run := repeat (rewrite ?bind_run, ?ret_run, ?lift_run; cbn [outcome final events]).

Section Engine.
Context `{Library}.

(** C10: a click with the alt key held makes [taskToggle] return at once:
    the run makes no syscall at all -- no buffer edit, no index query, no
    page write -- and leaves the world as it was. *)
Theorem taskToggle_alt_is_inert (event : ClickEvent) (w : World) :
  altKey event = true ->
  taskToggle event w = mkResult (Done tt) w [].
Proof.
  intros Halt. unfold taskToggle. rewrite Halt. reflexivity.
Qed.

Lemma chooseNextState_complete (stateText : string) (w : World) :
  JS.includes completeStates stateText = true ->
  chooseNextState stateText w = mkResult (Done (Some " ")) w [].
Proof. intros Hc. unfold chooseNextState. by rewrite Hc. Qed.

Lemma chooseNextState_incomplete (stateText : string) (w : World) :
  JS.includes completeStates stateText = false ->
  JS.includes incompleteStates stateText = true ->
  chooseNextState stateText w = mkResult (Done (Some "x")) w [].
Proof. intros Hc Hi. unfold chooseNextState. by rewrite Hc, Hi. Qed.

Lemma chooseNextState_custom (stateText : string) (w : World) :
  JS.includes completeStates stateText = false ->
  JS.includes incompleteStates stateText = false ->
  chooseNextState stateText w
  = let states := knownStates (Syscall.entriesWithPrefix "taskState:" w) in
    match JS.indexOf stateText states with
    | None => mkResult (Done None) w
                [EvQueryPrefix "taskState:"; EvConsoleError "Unknown state"]
    | Some i => mkResult
                  (Done (Some (nth ((i + 1) `mod` List.length states)%nat states "")))
                  w [EvQueryPrefix "taskState:"]
    end.
Proof.
  intros Hc Hi. unfold chooseNextState. rewrite Hc, Hi.
  rewrite bind_run. cbn [Syscall.queryPrefix outcome final events].
  cbv zeta. destruct (JS.indexOf _ _); reflexivity.
Qed.

(** Whatever state is chosen is what the engine writes first: the
    dispatch covers the range of the state token and inserts the choice. *)
Lemma cycleTaskState_first_write (pageName : string) (root : ParseTree) (p : Path)
    (w : World) (node marker : ParseTree) (stateText changeTo : string)
    (asked : list Event) :
  subtree root p = Some node ->
  childAt node 1 = Done (Some marker) ->
  nodeText marker = Some stateText ->
  chooseNextState stateText w = mkResult (Done (Some changeTo)) w asked ->
  exists rest,
    events (cycleTaskState pageName root p w)
    = (asked ++ EvDispatch (Some (nodeFrom marker)) (Some (nodeTo marker)) changeTo
         :: rest)%list.
Proof.
  intros Hnode Hchild Htext Hnext. unfold cycleTaskState.
  rewrite Hnode. cbn [assertPresent]. run.
  unfold childText. rewrite Hchild. cbn [mbind Outcome_bind assertPresent].
  rewrite Htext. cbn [assertPresent]. run. rewrite Hnext. run.
  set (written := Syscall.dispatch _ _ _ _).
  assert (events written
          = [EvDispatch (Some (nodeFrom marker)) (Some (nodeTo marker)) changeTo])
    as Hwritten.
  { subst written. unfold Syscall.dispatch. by destruct (_ && _)%bool. }
  destruct (outcome written); cbn [outcome final events]; rewrite Hwritten.
  - eexists. reflexivity.
  - by exists [].
Qed.

(** X19: when the custom token of the task is not among the known
    states as lines 148-150 compute them -- the second segments of the
    keys under [taskState:] -- the calls of [cycleTaskState] are the
    index query and the error message: no edit is dispatched, no page is
    written, no backlink is followed, and the world is unchanged. *)
Theorem unknown_state_aborts (pageName : string) (root : ParseTree) (p : Path)
    (w : World) (node : ParseTree) (stateText : string) :
  subtree root p = Some node ->
  childText node 1 = Done stateText ->
  JS.includes completeStates stateText = false ->
  JS.includes incompleteStates stateText = false ->
  JS.indexOf stateText (knownStates (Syscall.entriesWithPrefix "taskState:" w)) = None ->
  events (cycleTaskState pageName root p w)
  = [EvQueryPrefix "taskState:"; EvConsoleError "Unknown state"]
  /\ final (cycleTaskState pageName root p w) = w.
Proof.
  intros Hnode Htext Hc Hi Habsent. unfold cycleTaskState.
  rewrite Hnode. cbn [assertPresent]. run. rewrite Htext. run.
  rewrite (chooseNextState_custom _ _ Hc Hi). cbv zeta. rewrite Habsent.
  by split.
Qed.

End Engine.

Lemma taskToggle_alt_is_inert_witness :
  altKey (mkClickEvent "Home" (Some 3) true) = true
  /\ @taskToggle Scenario.lib (mkClickEvent "Home" (Some 3) true) Scenario.homeWorld
     = mkResult (Done tt) Scenario.homeWorld [].
Proof.
  split; [reflexivity|].
  apply (@taskToggle_alt_is_inert Scenario.lib). reflexivity.
Defined.

Lemma unknown_state_aborts_witness :
  events (@cycleTaskState Scenario.lib "Plans" (Demo.place 0 Scenario.plans)
            Scenario.statePath Scenario.plansWorld)
  = [EvQueryPrefix "taskState:"; EvConsoleError "Unknown state"].
Proof.
  destruct (@unknown_state_aborts Scenario.lib "Plans" (Demo.place 0 Scenario.plans)
              Scenario.statePath Scenario.plansWorld
              (Node "TaskState" 2 5
                 [Node "TaskMarker" 2 3 [TextNode 2 3 "["]; TextNode 3 4 "?";
                  Node "TaskMarker" 4 5 [TextNode 4 5 "]"]]) "?")
    as [Hcalls _]; [reflexivity | reflexivity | reflexivity | reflexivity
                   | by vm_compute |].
  exact Hcalls.
Defined.

(** ** Strings, sorting and distinct elements *)

Section Primitives.

Lemma split_without (sep : ascii) (s : string) :
  JS.includesChar sep s = false -> JS.split sep s = [s].
Proof.
  induction s as [|c s IH]; [reflexivity|]. cbn.
  intros [Hc Hs]%orb_false_iff. rewrite Hc, (IH Hs). reflexivity.
Qed.

Lemma split_two_includes (sep : ascii) (s a b : string) (rest : list string) :
  JS.split sep s = a :: b :: rest -> JS.includesChar sep s = true.
Proof.
  intros Hsplit. destruct (JS.includesChar sep s) eqn:Hinc; [reflexivity|].
  rewrite (split_without _ _ Hinc) in Hsplit. discriminate.
Qed.

Lemma stripPrefix_app (p s rest : string) :
  JS.stripPrefix p s = Some rest -> s = p +:+ rest.
Proof.
  revert s. induction p as [|a p IH]; intros s; cbn.
  - by intros [= ->].
  - destruct s as [|b s]; [discriminate|].
    destruct (Ascii.eqb_spec a b) as [->|]; [|discriminate].
    intros Hs. by rewrite (IH _ Hs).
Qed.

Lemma keySegment_of_token (token : string) :
  JS.includesChar ":" token = false ->
  keySegment ("taskState:" +:+ token) = token.
Proof.
  intros Hfree. unfold keySegment. cbv [String.append]. cbn.
  by rewrite (split_without _ _ Hfree).
Qed.

Lemma insertSorted_elem (x y : string) (l : list string) :
  In y (JS.insertSorted x l) <-> y = x \/ In y l.
Proof.
  induction l as [|z l IH]; cbn; [intuition congruence|].
  destruct (JS.leb x z); cbn; [intuition congruence|].
  rewrite IH. intuition congruence.
Qed.

Lemma sort_elem (y : string) (l : list string) : In y (JS.sort l) <-> In y l.
Proof.
  induction l as [|x l IH]; cbn; [done|].
  rewrite insertSorted_elem, IH. intuition congruence.
Qed.

Lemma insertSorted_sorted (x : string) (l : list string) :
  Sorted lexLe l -> Sorted lexLe (JS.insertSorted x l).
Proof.
  induction l as [|y l IH]; cbn; intros Hs.
  - repeat constructor.
  - destruct (JS.leb x y) eqn:Hxy.
    + constructor; [done|]. by constructor.
    + apply Sorted_inv in Hs as [Hl Hhd]. constructor; [by apply IH|].
      assert (lexLe y x) as Hyx.
      { unfold lexLe, JS.leb in *.
        destruct (String.leb_total (JS.unitKeys x) (JS.unitKeys y)) as [Hle|Hle];
          [congruence|done]. }
      destruct l as [|z l]; cbn; [by constructor|].
      destruct (JS.leb x z); constructor; [done|].
      by apply HdRel_inv in Hhd.
Qed.

Lemma sort_sorted (l : list string) : Sorted lexLe (JS.sort l).
Proof.
  induction l as [|x l IH]; cbn; [constructor|]. by apply insertSorted_sorted.
Qed.

Lemma dedupe_elem (y : string) (l : list string) : In y (JS.dedupe l) <-> In y l.
Proof.
  induction l as [|x l IH]; cbn; [done|].
  rewrite filter_In, IH, negb_true_iff, String.eqb_neq.
  destruct (decide (y = x)); intuition congruence.
Qed.

Lemma dedupe_distinct (l : list string) : List.NoDup (JS.dedupe l).
Proof.
  induction l as [|x l IH]; cbn; constructor.
  - rewrite filter_In, negb_true_iff, String.eqb_neq. intuition congruence.
  - by apply List.NoDup_filter.
Qed.

Lemma insertSorted_distinct (x : string) (l : list string) :
  ~ In x l -> List.NoDup l -> List.NoDup (JS.insertSorted x l).
Proof.
  induction l as [|y l IH]; cbn; intros Hx Hl.
  - constructor; [by intros []|constructor].
  - destruct (JS.leb x y); [by constructor|].
    apply List.NoDup_cons_iff in Hl as [Hy Hl]. constructor.
    + rewrite insertSorted_elem. cbn in Hx. intuition congruence.
    + apply IH; [|done]. cbn in Hx. intuition congruence.
Qed.

Lemma sort_distinct (l : list string) : List.NoDup l -> List.NoDup (JS.sort l).
Proof.
  induction l as [|x l IH]; cbn; [done|].
  intros [Hx Hl]%List.NoDup_cons_iff. apply insertSorted_distinct; [|by apply IH].
  by rewrite sort_elem.
Qed.

End Primitives.

(** ** Numerals in keys *)

Section Numerals.

Lemma digits_without_colon (d : Decimal.uint) :
  JS.includesChar ":" (NilEmpty.string_of_uint d) = false.
Proof. induction d; cbn; auto. Qed.

Lemma digits_to_Z_digits (d : Decimal.uint) :
  d <> Decimal.Nil ->
  JS.digits_to_Z (NilEmpty.string_of_uint d) = Some (Z.of_uint d).
Proof.
  intros Hd. unfold JS.digits_to_Z. rewrite NilEmpty.usu. by destruct d.
Qed.

Lemma digits_read_back (d : Decimal.uint) :
  d <> Decimal.Nil ->
  JS.toNumber (NilEmpty.string_of_uint d) = Some (Z.of_uint d).
Proof.
  intros Hd. rewrite <- (digits_to_Z_digits d Hd). by destruct d.
Qed.

Lemma nonnil_digits (d : Decimal.uint) :
  d <> Decimal.Nil -> NilZero.string_of_uint d = NilEmpty.string_of_uint d.
Proof. by destruct d. Qed.

Lemma toNumber_numToString (z : Z) : JS.toNumber (JS.numToString z) = Some z.
Proof.
  unfold JS.numToString. destruct z as [|p|p]; [reflexivity| |];
    cbn [Z.to_int NilZero.string_of_int];
    pose proof (Unsigned.to_uint_nonnil p) as Hnil;
    pose proof (Unsigned.of_to p) as Hback;
    rewrite (nonnil_digits _ Hnil).
  - rewrite (digits_read_back _ Hnil). unfold Z.of_uint. by rewrite Hback.
  - cbn [JS.toNumber]. rewrite (digits_to_Z_digits _ Hnil).
    unfold Z.of_uint. by rewrite Hback.
Qed.

Lemma numToString_without_colon (z : Z) :
  JS.includesChar ":" (JS.numToString z) = false.
Proof.
  unfold JS.numToString.
  destruct z as [|p|p]; [reflexivity| |]; cbn [Z.to_int NilZero.string_of_int];
    rewrite (nonnil_digits _ (Unsigned.to_uint_nonnil p));
    cbn [JS.includesChar]; apply digits_without_colon.
Qed.

Lemma keySegment_of_offset (z : Z) :
  keySegment ("task:" +:+ JS.numToString z) = JS.numToString z.
Proof.
  unfold keySegment. cbv [String.append]. cbn [JS.split Ascii.eqb Bool.eqb].
  by rewrite (split_without _ _ (numToString_without_colon z)).
Qed.

End Numerals.

(** ** The state cycle *)

Section Cycle.
Context `{Library}.

Lemma binary_split (stateText : string) :
  JS.includes binaryStates stateText = false ->
  JS.includes completeStates stateText = false
  /\ JS.includes incompleteStates stateText = false.
Proof.
  unfold JS.includes, binaryStates, completeStates, incompleteStates. cbn.
  destruct (String.eqb stateText " "), (String.eqb stateText "x"),
    (String.eqb stateText "X"); cbn; auto.
Qed.

Lemma segments_are_tokens (l : list Entry) :
  forallb (fun e => match tokenOfKey (key e) with
                    | Some token => negb (JS.includesChar ":" token)
                    | None => true
                    end) l = true ->
  (fun s => keySegment (key s))
    <$> List.filter (fun e => JS.startsWith "taskState:" (key e)) l
  = omap (fun e => tokenOfKey (key e)) l.
Proof.
  induction l as [|e l IH]; [reflexivity|].
  cbn [forallb List.filter omap list_omap]. intros [He Hl]%andb_true_iff.
  unfold JS.startsWith, tokenOfKey in *.
  destruct (JS.stripPrefix "taskState:" (key e)) as [token|] eqn:Hkey.
  - cbn [fmap list_fmap]. rewrite (IH Hl).
    apply stripPrefix_app in Hkey. rewrite Hkey.
    rewrite keySegment_of_token; [reflexivity|]. by apply negb_true_iff.
  - by apply IH.
Qed.

Lemma knownStates_frequencyTokens (w : World) :
  colonFreeTable w = true ->
  knownStates (Syscall.entriesWithPrefix "taskState:" w) = frequencyTokens w.
Proof.
  intros Hfree. unfold knownStates, frequencyTokens, Syscall.entriesWithPrefix.
  by rewrite (segments_are_tokens _ Hfree).
Qed.

(** X20: for a custom token, when no token of the frequency
    table holds a colon, the successor is the element at index
    [(i + 1) mod n] of the table's tokens (all pages), distinct and
    sorted by UTF-16 code units, where [i] is the index of the current
    token; the tokens [-], [/] and [!] sort to [!], [-], [/] and are
    cycled [-] to [/], [/] to [!], [!] to [-]. *)
Theorem custom_cycle_through_table (w : World) (stateText : string) :
  JS.includes binaryStates stateText = false ->
  colonFreeTable w = true ->
  cyclesThroughTable w stateText
  /\ (forall i pageName root p node marker,
        JS.indexOf stateText (frequencyTokens w) = Some i ->
        subtree root p = Some node ->
        childAt node 1 = Done (Some marker) ->
        nodeText marker = Some stateText ->
        exists rest,
          events (cycleTaskState pageName root p w)
          = EvQueryPrefix "taskState:"
            :: EvDispatch (Some (nodeFrom marker)) (Some (nodeTo marker))
                 (nth ((i + 1) `mod` List.length (frequencyTokens w))%nat
                    (frequencyTokens w) "")
            :: rest)
  /\ Sorted lexLe (frequencyTokens w)
  /\ List.NoDup (frequencyTokens w)
  /\ (forall token,
        In token (frequencyTokens w)
        <-> exists e, In e (Syscall.entriesOf (indexStore w))
                      /\ key e = "taskState:" +:+ token)
  /\ frequencyTokens Scenario.customWorld = ["!"; "-"; "/"]
  /\ nextOf Scenario.customWorld "-" = Some "/"
  /\ nextOf Scenario.customWorld "/" = Some "!"
  /\ nextOf Scenario.customWorld "!" = Some "-".
Proof.
  intros [Hc Hi]%binary_split Hfree. split; [|split; [|split; [|split; [|split]]]].
  - intros i Hidx. unfold nextOf.
    rewrite (chooseNextState_custom _ _ Hc Hi). cbv zeta.
    rewrite (knownStates_frequencyTokens _ Hfree), Hidx. reflexivity.
  - intros i pageName root p node marker Hidx Hnode Hchild Htext.
    apply (cycleTaskState_first_write pageName root p w node marker stateText
             _ [EvQueryPrefix "taskState:"] Hnode Hchild Htext).
    rewrite (chooseNextState_custom _ _ Hc Hi). cbv zeta.
    rewrite (knownStates_frequencyTokens _ Hfree), Hidx. reflexivity.
  - apply sort_sorted.
  - apply sort_distinct, dedupe_distinct.
  - intros token. unfold frequencyTokens.
    rewrite sort_elem, dedupe_elem, <- list_elem_of_In, list_elem_of_omap.
    split.
    + intros (e & He & Hkey). exists e. split; [by apply list_elem_of_In|].
      by apply stripPrefix_app.
    + intros (e & He & Hkey). exists e. split; [by apply list_elem_of_In|].
      unfold tokenOfKey. rewrite Hkey. clear. cbv [String.append]. cbn.
      reflexivity.
  - vm_compute. auto.
Qed.

(** A table with a token that holds a colon is not cycled through: the
    state [a:b] is in the frequency table, alone, so its successor would
    be itself; the engine reads the key back as [a] and reports the
    state unknown. *)
Lemma colon_token_is_not_cycled :
  ~ cyclesThroughTable Scenario.colonWorld "a:b".
Proof.
  intros Hclaim. specialize (Hclaim O). vm_compute in Hclaim.
  specialize (Hclaim eq_refl). discriminate.
Qed.

(** C4, as amended: one cycle maps [x] and [X] to a blank and a blank to
    [x], with no syscall; two cycles take [x] back to [x] and a blank
    back to a blank, and take [X] to [x]. *)
Theorem binary_toggle (w : World) :
  chooseNextState "x" w = mkResult (Done (Some " ")) w []
  /\ chooseNextState "X" w = mkResult (Done (Some " ")) w []
  /\ chooseNextState " " w = mkResult (Done (Some "x")) w []
  /\ cycleTwice w "x" = Some "x"
  /\ cycleTwice w " " = Some " "
  /\ cycleTwice w "X" = Some "x"
  /\ (forall pageName root p node marker stateText,
        subtree root p = Some node ->
        childAt node 1 = Done (Some marker) ->
        nodeText marker = Some stateText ->
        In stateText binaryStates ->
        exists rest,
          events (cycleTaskState pageName root p w)
          = EvDispatch (Some (nodeFrom marker)) (Some (nodeTo marker))
              (if String.eqb stateText " " then "x" else " ")
            :: rest).
Proof.
  repeat (split; [reflexivity|]).
  intros pageName root p node marker stateText Hnode Hchild Htext Hbinary.
  apply (cycleTaskState_first_write pageName root p w node marker stateText
           _ [] Hnode Hchild Htext).
  cbn in Hbinary. destruct Hbinary as [<-|[<-|[<-|[]]]]; reflexivity.
Qed.

(** C4, the claim as stated fails: two cycles do not take the binary
    token [X] back to [X]. *)
Lemma upper_x_does_not_return :
  ~ (forall stateText, In stateText binaryStates ->
       cycleTwice Scenario.emptyWorld stateText = Some stateText).
Proof.
  intros Hclaim. specialize (Hclaim "X"). cbn in Hclaim.
  assert (Some "x" = Some "X") as Heq by (apply Hclaim; auto).
  discriminate.
Qed.

End Cycle.

(** C3, the code at the failing input: the page [Roadmap] holds the
    task [- [a:b] ship] and was indexed, so the frequency table holds the
    one token [a:b], at index [0], and the claim's successor, the token
    at index [(0 + 1) mod 1], is [a:b] itself, to be written over the
    marker.  Line 149 reads the key [taskState:a:b] back as [a]; the
    cycle does not find [a:b] among the states, reports it unknown and
    returns with nothing written. *)
Lemma colon_state_is_reported_unknown :
  indexStore Scenario.roadmapWorld !! ("Roadmap", "taskState:a:b") = Some (SCount 1)
  /\ frequencyTokens Scenario.roadmapWorld = ["a:b"]
  /\ JS.indexOf "a:b" (frequencyTokens Scenario.roadmapWorld) = Some O
  /\ knownStates (Syscall.entriesWithPrefix "taskState:" Scenario.roadmapWorld) = ["a"]
  /\ @cycleTaskState Scenario.lib "Roadmap" (Demo.place 0 Scenario.roadmap)
       Scenario.statePath Scenario.roadmapWorld
     = mkResult (Done tt) Scenario.roadmapWorld
         [EvQueryPrefix "taskState:"; EvConsoleError "Unknown state"]
  /\ ~ cyclesThroughTable Scenario.roadmapWorld "a:b".
Proof.
  split; [by vm_compute|]. split; [by vm_compute|]. split; [by vm_compute|].
  split; [by vm_compute|]. split; [by vm_compute|].
  intros Hclaim. specialize (Hclaim O). vm_compute in Hclaim.
  specialize (Hclaim eq_refl). discriminate.
Qed.

(** C5, the code at the failing input: the page [Draft] holds the task
    [- [a] ship]; the frequency table holds the one token [a:b], so the
    custom token [a] is absent from it, and the claim has the cycle
    abort with an error and nothing written.  Line 149 reads the key
    [taskState:a:b] back as [a]; the cycle finds [a] among the states,
    reports no error and dispatches [a] over the marker. *)
Lemma absent_state_is_dispatched :
  frequencyTokens Scenario.draftWorld = ["a:b"]
  /\ ~ In "a" (frequencyTokens Scenario.draftWorld)
  /\ JS.includes binaryStates "a" = false
  /\ @cycleTaskState Scenario.lib "Draft" (Demo.place 0 Scenario.draft)
       Scenario.statePath Scenario.draftWorld
     = mkResult (Done tt) Scenario.draftWorld
         [EvQueryPrefix "taskState:"; EvDispatch (Some 3) (Some 4) "a"].
Proof.
  split; [by vm_compute|]. split; [|split; [by vm_compute|by vm_compute]].
  vm_compute. intros [Heq|[]]. discriminate.
Qed.

Lemma custom_cycle_through_table_witness :
  nextOf Scenario.customWorld "-" = Some "/".
Proof.
  destruct (@custom_cycle_through_table Scenario.lib Scenario.customWorld "-")
    as [Hcycle _]; [reflexivity | reflexivity |].
  exact (Hcycle 1%nat eq_refl).
Defined.

Lemma binary_toggle_witness :
  exists rest,
    events (@cycleTaskState Scenario.lib "Home" (Demo.place 0 Scenario.home)
              Scenario.statePath Scenario.homeWorld)
    = EvDispatch (Some 3) (Some 4) " " :: rest.
Proof.
  destruct (@binary_toggle Scenario.lib Scenario.homeWorld)
    as (_ & _ & _ & _ & _ & _ & Hwrite).
  apply (Hwrite "Home" (Demo.place 0 Scenario.home) Scenario.statePath
           (Node "TaskState" 2 5
              [Node "TaskMarker" 2 3 [TextNode 2 3 "["]; TextNode 3 4 "x";
               Node "TaskMarker" 4 5 [TextNode 4 5 "]"]])
           (TextNode 3 4 "x") "x");
    [reflexivity | reflexivity | reflexivity | cbn; auto].
Defined.

(** ** Walks over a tree *)

Section Walks.

Lemma ParseTree_children_ind (P : ParseTree -> Prop) :
  (forall a b s, P (TextNode a b s)) ->
  (forall ty a b cs, Forall P cs -> P (Node ty a b cs)) ->
  forall t, P t.
Proof.
  intros Htext Hnode. fix IH 1. intros [a b s|ty a b cs]; [apply Htext|].
  apply Hnode. induction cs as [|c cs IHcs]; constructor; [apply IH|apply IHcs].
Qed.

(** What every call of the callback guarantees, the whole walk
    guarantees. *)
Lemma replaceNodesMatching_related {St : Type}
    (substituteFn : ParseTree -> St -> Outcome (Subst * St))
    (R : St -> St -> Prop) :
  (forall s, R s s) ->
  (forall s1 s2 s3, R s1 s2 -> R s2 s3 -> R s1 s3) ->
  (forall t s subst s', substituteFn t s = Done (subst, s') -> R s s') ->
  forall t s t' s',
    replaceNodesMatching substituteFn t s = Done (t', s') -> R s s'.
Proof.
  intros Hrefl Htrans Hstep t.
  induction t as [a b text|ty a b cs IH] using ParseTree_children_ind;
    intros s t' s'; cbn [replaceNodesMatching].
  - by intros [= _ <-].
  - destruct (substituteChildren substituteFn (replaceNodesMatching substituteFn) cs s)
      as [[cs' s1]|] eqn:Hcs; cbn; [|discriminate].
    intros [= _ <-]. revert s cs' s1 Hcs.
    induction IH as [|c cs Hc _ IHcs]; intros s cs' s1; cbn [substituteChildren].
    + by intros [= _ <-].
    + destruct (substituteFn c s) as [[subst s2]|] eqn:Hsub; cbn; [|discriminate].
      apply Hstep in Hsub. destruct subst as [| |c'].
      * destruct (replaceNodesMatching substituteFn c s2) as [[c' s3]|] eqn:Hrec;
          cbn; [|discriminate].
        apply Hc in Hrec.
        destruct (substituteChildren _ _ cs s3) as [[l' s4]|] eqn:Hrest;
          cbn; [|discriminate].
        intros [= _ <-]. apply IHcs in Hrest. eauto.
      * intros Hrest. apply IHcs in Hrest. eauto.
      * destruct (substituteChildren _ _ cs s2) as [[l' s4]|] eqn:Hrest;
          cbn; [|discriminate].
        intros [= _ <-]. apply IHcs in Hrest. eauto.
Qed.

End Walks.

Section NodeAt.

Lemma scanChildren_found (pos : JS.JsNum) (self : ParseTree) (cs : list ParseTree) :
  Forall (fun c => forall p n, nodeAtPos c pos = Some (p, n) -> subtree c p = Some n) cs ->
  forall i p n,
    scanChildren self (fun c => nodeAtPos c pos) i cs = Some (p, n) ->
    p = [] /\ n = self
    \/ exists j q c, p = (i + j)%nat :: q /\ cs !! j = Some c /\ subtree c q = Some n.
Proof.
  induction 1 as [|c cs Hc _ IHcs]; intros i p n; cbn [scanChildren];
    [discriminate|].
  destruct (nodeAtPos c pos) as [[q m]|] eqn:Hfound.
  - destruct (nodeText m).
    + intros [= <- <-]. by left.
    + intros [= <- <-]. right. exists O, q, c.
      rewrite Nat.add_0_r. auto.
  - intros Hrest. destruct (IHcs _ _ _ Hrest) as [?|(j & q & c' & -> & Hj & Hq)];
      [by left|].
    right. exists (S j), q, c'. by rewrite Nat.add_succ_r.
Qed.

(** The path [nodeAtPos] answers leads to the node it answers. *)
Lemma nodeAtPos_subtree (t : ParseTree) (pos : JS.JsNum) :
  forall p n, nodeAtPos t pos = Some (p, n) -> subtree t p = Some n.
Proof.
  induction t as [a b text|ty a b cs IH] using ParseTree_children_ind;
    intros p n; cbn [nodeAtPos]; destruct (_ || _)%bool; try discriminate.
  - by intros [= <- <-].
  - intros Hscan.
    destruct (scanChildren_found _ _ _ IH _ _ _ Hscan)
      as [[-> ->]|(j & q & c & -> & Hj & Hq)]; [reflexivity|].
    cbn [subtree Nat.add]. by rewrite Hj.
Qed.

End NodeAt.

(** ** The cross-reference resolver *)

Section Resolver.
Context `{Library}.


Lemma propagateTo_stored_page (pageName stateText changeTo : string)
    (wikiLink : ParseTree) (w : World) (ref page posS : string) (rest : list string) :
  childText wikiLink 0 = Done ref ->
  JS.split "@" ref = page :: posS :: rest ->
  page <> pageName ->
  propagateTo pageName stateText changeTo wikiLink w
  = match pages w !! page with
    | None => mkResult Threw w [EvReadPage page]
    | Some text =>
        match storedTaskStateAt page (JS.toNumber posS) w with
        | None => mkResult (Done Return) w [EvReadPage page; EvConsoleError staleMessage]
        | Some (p, n) =>
            match childAt n 1 with
            | Done (Some _) =>
                let text' := renderToText
                               (updateAt (parseMarkdown text) (p ++ [1%nat])%list
                                  (setText changeTo)) in
                mkResult (Done Next)
                  (mkWorld (editorText w) (<[page := text']> (pages w)) (indexStore w))
                  [EvReadPage page; EvWritePage page text';
                   EvScheduleFileSync (page +:+ ".md")]
            | _ => mkResult Threw w [EvReadPage page]
            end
        end
    end.
Proof.
  intros Href Hsplit Hne. unfold propagateTo. rewrite Href. run.
  rewrite (split_two_includes _ _ _ _ _ Hsplit), Hsplit.
  apply String.eqb_neq in Hne. rewrite Hne. run.
  unfold storedTaskStateAt. cbn [Syscall.readPage outcome final events].
  destruct (pages w !! page) as [text|]; cbn [assertPresent mbind option_bind];
    [|reflexivity].
  destruct (nodeAtPos _ _) as [[p n]|]; cbn [mbind option_bind]; [|reflexivity].
  destruct (hasType "TaskState" n); cbn [negb]; [|reflexivity].
  run. destruct (childAt n 1) as [[target|]|]; reflexivity.
Qed.


End Resolver.



(** ** The loop over the backlinks *)

Section Loop.
Context `{Library}.

(** A round that makes the function return has reported staleness, has
    written nothing and has left the world as it was. *)
Lemma propagateTo_return (pageName stateText changeTo : string)
    (wikiLink : ParseTree) (w : World) :
  outcome (propagateTo pageName stateText changeTo wikiLink w) = Done Return ->
  final (propagateTo pageName stateText changeTo wikiLink w) = w
  /\ exists reads,
       events (propagateTo pageName stateText changeTo wikiLink w)
       = (reads ++ [EvConsoleError staleMessage])%list
       /\ existsb isWrite reads = false.
Proof.
  unfold propagateTo.
  destruct (childText wikiLink 0) as [ref|]; run; [|discriminate].
  destruct (JS.includesChar "@" ref); [|discriminate].
  destruct (JS.split "@" ref) as [|page [|posS rest]]; try discriminate.
  destruct (String.eqb page pageName).
  - run. cbn [Syscall.getText outcome final events].
    destruct (String.eqb _ stateText); cbn [negb]; run.
    + unfold Syscall.dispatch.
      destruct (JS.num_add (JS.toNumber posS) 1) as [x|]; [|discriminate].
      cbn [JS.num_add]. destruct (_ && _)%bool; discriminate.
    + intros _. split; [reflexivity|]. by exists [EvGetText].
  - run. cbn [Syscall.readPage outcome final events].
    destruct (pages w !! page) as [text|]; cbn [assertPresent]; [|discriminate].
    destruct (nodeAtPos _ _) as [[p n]|].
    + destruct (hasType "TaskState" n); cbn [negb]; run.
      * destruct (childAt n 1) as [[target|]|]; discriminate.
      * intros _. split; [reflexivity|]. by exists [EvReadPage page].
    + run. intros _. split; [reflexivity|]. by exists [EvReadPage page].
Qed.

Lemma propagateAll_app (pageName stateText changeTo : string)
    (before after : list ParseTree) (w : World) :
  propagateAll pageName stateText changeTo (before ++ after)%list w
  = let done := propagateAll pageName stateText changeTo before w in
    match outcome done with
    | Done Next =>
        let more := propagateAll pageName stateText changeTo after (final done) in
        mkResult (outcome more) (final more) (events done ++ events more)%list
    | _ => done
    end.
Proof.
  revert w. induction before as [|wikiLink before IH]; intros w.
  - cbn. by rewrite result_eta.
  - cbn [app propagateAll]. rewrite !bind_run.
    destruct (propagateTo pageName stateText changeTo wikiLink w)
      as [[[|]|] w1 evs1]; cbn [outcome final events]; try reflexivity.
    rewrite IH. cbv zeta.
    destruct (propagateAll pageName stateText changeTo before w1)
      as [[[|]|] w2 evs2]; cbn [outcome final events]; try reflexivity.
    by rewrite app_assoc.
Qed.

(** C2, as amended: when the backlinks before the N-th were processed
    and the N-th is found stale, the failure is reported and the function
    returns: the writes made for the backlinks before it stay (the world
    is the one they left), and the backlinks after it are not processed
    (neither the world nor the syscalls depend on them). *)
Theorem stale_backlink_ends_propagation (pageName stateText changeTo : string)
    (before : list ParseTree) (failing : ParseTree) (after : list ParseTree)
    (w : World) :
  let done := propagateAll pageName stateText changeTo before w in
  let failed := propagateTo pageName stateText changeTo failing (final done) in
  let r := propagateAll pageName stateText changeTo (before ++ failing :: after)%list w in
  outcome done = Done Next ->
  outcome failed = Done Return ->
  outcome r = Done Return
  /\ final r = final done
  /\ events r = (events done ++ events failed)%list
  /\ (exists reads, events failed = (reads ++ [EvConsoleError staleMessage])%list
                    /\ existsb isWrite reads = false)
  /\ r = propagateAll pageName stateText changeTo (before ++ [failing])%list w.
Proof.
  intros done failed r Hdone Hfailed. subst done failed r.
  destruct (propagateTo_return _ _ _ _ _ Hfailed) as [Hworld Hreport].
  assert (forall rest,
            propagateAll pageName stateText changeTo (before ++ failing :: rest)%list w
            = mkResult (Done Return)
                (final (propagateAll pageName stateText changeTo before w))
                (events (propagateAll pageName stateText changeTo before w)
                 ++ events (propagateTo pageName stateText changeTo failing
                              (final (propagateAll pageName stateText changeTo before w))))%list)
    as Hany.
  { intros rest. rewrite propagateAll_app. cbv zeta. rewrite Hdone.
    cbn [propagateAll]. rewrite bind_run, Hfailed.
    cbn [outcome final events]. rewrite ret_run. cbn [outcome final events].
    by rewrite Hworld, app_nil_r. }
  rewrite (Hany after), (Hany []). cbn [outcome final events]. auto.
Qed.

End Loop.

(** C2, the claim as stated fails: of the two backlinks of [Home], the
    first is stale and the second, to [Notes], is not; the loop does not
    go on to the second, and [Notes] is not written. *)
Lemma propagation_stops_at_stale_backlink :
  ~ @continuesPastFailure Scenario.lib "Home" "x" " "
      (Scenario.linksOf Scenario.homeTwoLinks) Scenario.twoLinksWorld.
Proof.
  intros [_ Hevents]. vm_compute in Hevents. discriminate.
Qed.

Lemma stale_backlink_ends_propagation_witness :
  final (@propagateAll Scenario.lib "Home" "x" " "
           ([] ++ Node "WikiLinkPage" 8 15 [TextNode 8 15 "Home@90"]
               :: [Node "WikiLinkPage" 20 27 [TextNode 20 27 "Notes@2"]])%list
           Scenario.twoLinksWorld)
  = Scenario.twoLinksWorld.
Proof.
  destruct (@stale_backlink_ends_propagation Scenario.lib "Home" "x" " " []
              (Node "WikiLinkPage" 8 15 [TextNode 8 15 "Home@90"])
              [Node "WikiLinkPage" 20 27 [TextNode 20 27 "Notes@2"]]
              Scenario.twoLinksWorld)
    as (_ & Hfinal & _); [reflexivity | reflexivity |].
  exact Hfinal.
Defined.

(** ** The extractor *)

Ltac orun := cbn [mbind Outcome_bind mret Outcome_ret assertPresent].

Section Extractor.
Context `{Library}.

Lemma capture_keeps (field : string) (tree : ParseTree) (task : Obj)
    (subst : Subst) (task' : Obj) :
  field <> "deadline" -> field <> "tags" ->
  captureDeadlineAndTags tree task = Done (subst, task') ->
  task' !! field = task !! field.
Proof.
  intros Hd Ht. unfold captureDeadlineAndTags.
  destruct (hasType "DeadlineDate" tree).
  - destruct (getDeadline tree) as [deadline|]; orun; [|discriminate].
    intros [= _ <-]. by rewrite lookup_insert_ne.
  - destruct (hasType "Hashtag" tree).
    + destruct (childText tree 0) as [text|]; orun; [|discriminate].
      intros [= _ <-]. by rewrite lookup_insert_ne.
    + by intros [= _ <-].
Qed.

Lemma assignAll_keeps (field : string) (attrs : list (string * Value)) (obj : Obj) :
  ~ In field (fst <$> attrs) -> assignAll attrs obj !! field = obj !! field.
Proof.
  revert obj. induction attrs as [|[k v] attrs IH]; intros obj Hfield; [done|].
  unfold assignAll in *. cbn [foldl]. cbn in Hfield. rewrite IH; [|tauto].
  apply lookup_insert_ne. intros ->. tauto.
Qed.

Lemma visitTask_other (name : string) (n : ParseTree) (ctx : Context)
    (acc : Extraction) :
  hasType "Task" n = false -> visitTask name n ctx acc = Done (false, acc).
Proof. intros Hty. unfold visitTask. by rewrite Hty. Qed.

Lemma visitTask_task (name : string) (n : ParseTree) (ctx : Context)
    (acc : Extraction) (stop : bool) (acc' : Extraction) :
  hasType "Task" n = true ->
  visitTask name n ctx acc = Done (stop, acc') ->
  stop = true
  /\ exists state entry,
       recordOf name n state entry
       /\ tasks acc' = (tasks acc ++ [entry])%list
       /\ taskStates acc' = countState state (taskStates acc).
Proof.
  intros Hty. unfold visitTask, recordOf, prepared, stateOf.
  rewrite Hty. cbn [negb].
  destruct (childAt n 0) as [marker|]; orun; [|discriminate].
  destruct marker as [marker|]; orun; [|discriminate].
  destruct (childText marker 1) as [state|]; orun; [|discriminate].
  cbv zeta. fold (blankTask state).
  destruct (replaceNodesMatching captureDeadlineAndTags (rewritePageRefs n name)
              (blankTask state)) as [[n2 task]|] eqn:Hwalk; orun; [|discriminate].
  destruct (extractAttributes n2 true) as [attrs n3] eqn:Hattrs.
  destruct (nodeChildren n3) as [children|]; orun; [|discriminate].
  destruct ctx as [[parent taskIndex]|]; orun; [|discriminate].
  destruct (nodeChildren parent) as [siblings|]; orun; [|discriminate].
  intros [= <- <-]. split; [reflexivity|]. cbn [tasks taskStates].
  eexists state, (_, _). split; [|split; reflexivity].
  split; [reflexivity|]. exists attrs, n3. split; [reflexivity|].
  split; [reflexivity|]. cbn [fst snd].
  intros field Hown Hattr. cbn in Hown.
  assert (task !! field = blankTask state !! field) as Hkept.
  { revert Hwalk.
    apply (replaceNodesMatching_related captureDeadlineAndTags
             (fun o o' : Obj => o' !! field = o !! field)).
    - done.
    - intros o1 o2 o3 H12 H23. congruence.
    - intros t s subst s'. apply capture_keeps; intros ->; tauto. }
  destruct (0 <? _).
  - rewrite lookup_insert_ne by (intros <-; tauto).
    rewrite lookup_insert_ne by (intros <-; tauto).
    by rewrite assignAll_keeps.
  - rewrite lookup_insert_ne by (intros <-; tauto).
    by rewrite assignAll_keeps.
Qed.

Lemma taskNodes_task (n : ParseTree) : hasType "Task" n = true -> taskNodes n = [n].
Proof.
  intros Hty. unfold taskNodes. destruct n as [a b s|ty a b cs]; [discriminate|].
  cbn [collectNodesMatching]. by rewrite Hty.
Qed.

Lemma taskNodes_node (ty : string) (a b : Z) (cs : list ParseTree) :
  hasType "Task" (Node ty a b cs) = false ->
  taskNodes (Node ty a b cs) = List.concat (List.map taskNodes cs).
Proof. intros Hty. unfold taskNodes. cbn [collectNodesMatching]. by rewrite Hty. Qed.

(** The walk of a pass: one record per task node, in document order,
    and one step of the counters per task node. *)
Lemma traverse_records (name : string) (t : ParseTree) :
  forall ctx acc acc',
    traverseTree (visitTask name) ctx t acc = Done acc' ->
    exists items : list (string * (string * Obj)),
      Forall2 (fun n item => recordOf name n item.1 item.2) (taskNodes t) items
      /\ tasks acc' = (tasks acc ++ (snd <$> items))%list
      /\ taskStates acc'
         = foldl (fun counts state => countState state counts) (taskStates acc)
             (fst <$> items).
Proof.
  induction t as [a b text|ty a b cs IH] using ParseTree_children_ind;
    intros ctx acc acc'.
  - cbn [traverseTree]. rewrite visitTask_other by reflexivity. orun.
    intros [= <-]. exists []. cbn. rewrite app_nil_r.
    split; [constructor|]. by split.
  - cbn [traverseTree].
    destruct (hasType "Task" (Node ty a b cs)) eqn:Hty.
    + destruct (visitTask name (Node ty a b cs) ctx acc) as [[stop acc1]|] eqn:Hvisit;
        orun; [|discriminate].
      destruct (visitTask_task _ _ _ _ _ _ Hty Hvisit)
        as (-> & state & entry & Hrec & Htasks & Hstates).
      intros [= <-]. exists [(state, entry)].
      rewrite (taskNodes_task _ Hty). cbn [fmap list_fmap foldl fst snd].
      split; [constructor; [exact Hrec|constructor]|]. by split.
    + rewrite (visitTask_other _ _ _ _ Hty). orun.
      rewrite (taskNodes_node _ _ _ _ Hty). clear Hty.
      generalize (Node ty a b cs) as self. generalize O as i.
      intros i self. revert i acc acc'.
      induction IH as [|c cs Hc _ IHcs]; intros i acc acc'; cbn [eachChild].
      * intros [= <-]. exists []. cbn. rewrite app_nil_r.
        split; [constructor|]. by split.
      * destruct (traverseTree (visitTask name) (Some (self, i)) c acc)
          as [acc1|] eqn:Hfirst; orun; [|discriminate].
        intros Hrest.
        destruct (Hc _ _ _ Hfirst) as (items1 & Hrec1 & Htasks1 & Hstates1).
        destruct (IHcs _ _ _ Hrest) as (items2 & Hrec2 & Htasks2 & Hstates2).
        exists (items1 ++ items2)%list. cbn [List.map List.concat].
        split; [by apply Forall2_app|].
        rewrite !fmap_app, foldl_app, Htasks2, Htasks1, Hstates2, Hstates1.
        by rewrite app_assoc.
Qed.

Lemma extractTasks_records (name : string) (tree : ParseTree) (found : Extraction) :
  extractTasks name tree = Done found ->
  exists items : list (string * (string * Obj)),
    Forall2 (fun n item => recordOf name n item.1 item.2)
      (taskNodes (removeQueries tree)) items
    /\ tasks found = snd <$> items
    /\ taskStates found = countAll (fst <$> items).
Proof.
  intros Hfound. apply traverse_records in Hfound.
  destruct Hfound as (items & Hrec & Htasks & Hstates). by exists items.
Qed.

End Extractor.

(** ** The counters of a pass *)

Section Counters.

Lemma mapGet_mapSet_eq (k : string) (v : Z) (m : list (string * Z)) :
  mapGet k (mapSet k v m) = Some v.
Proof.
  unfold mapGet. induction m as [|[k' v'] m IH]; cbn.
  - by rewrite String.eqb_refl.
  - destruct (String.eqb k' k) eqn:Hk; cbn.
    + by rewrite String.eqb_refl.
    + by rewrite Hk.
Qed.

Lemma mapGet_mapSet_ne (k k' : string) (v : Z) (m : list (string * Z)) :
  k <> k' -> mapGet k' (mapSet k v m) = mapGet k' m.
Proof.
  intros Hne. unfold mapGet. induction m as [|[k0 v0] m IH]; cbn.
  - apply String.eqb_neq in Hne. by rewrite Hne.
  - destruct (String.eqb k0 k) eqn:Hk; cbn.
    + apply String.eqb_eq in Hk as ->. apply String.eqb_neq in Hne.
      by rewrite Hne.
    + destruct (String.eqb k0 k'); [reflexivity|exact IH].
Qed.

Lemma binary_or (state : string) :
  JS.includes binaryStates state
  = (JS.includes incompleteStates state || JS.includes completeStates state)%bool.
Proof.
  unfold JS.includes, binaryStates, completeStates, incompleteStates. cbn.
  by destruct (String.eqb state " "), (String.eqb state "x"),
    (String.eqb state "X").
Qed.

Lemma countState_binary (state : string) (counts : list (string * Z)) :
  JS.includes binaryStates state = true -> countState state counts = counts.
Proof.
  rewrite binary_or. unfold countState.
  by destruct (JS.includes incompleteStates state),
    (JS.includes completeStates state).
Qed.

Lemma countState_same (state : string) (counts : list (string * Z)) :
  JS.includes binaryStates state = false ->
  mapGet state (countState state counts)
  = Some (default 0 (mapGet state counts) + 1).
Proof.
  rewrite binary_or. intros [Hi Hc]%orb_false_iff. unfold countState.
  rewrite Hi, Hc. cbn [negb andb].
  destruct (mapGet state counts) as [c|]; cbn [default];
    by rewrite mapGet_mapSet_eq.
Qed.

Lemma countState_other (state token : string) (counts : list (string * Z)) :
  state <> token ->
  mapGet token (countState state counts) = mapGet token counts.
Proof.
  intros Hne. unfold countState. destruct (_ && _)%bool; [|reflexivity].
  destruct (mapGet state counts); by apply mapGet_mapSet_ne.
Qed.

Lemma counters_after (token : string) (tokens : list string)
    (counts : list (string * Z)) :
  mapGet token (foldl (fun counts state => countState state counts) counts tokens)
  = if JS.includes binaryStates token then mapGet token counts
    else if occurrences token tokens =? 0 then mapGet token counts
         else Some (default 0 (mapGet token counts) + occurrences token tokens).
Proof.
  revert counts. unfold occurrences.
  induction tokens as [|state tokens IH]; intros counts; cbn [foldl List.filter].
  - by destruct (JS.includes binaryStates token).
  - rewrite IH. set (n := List.length (List.filter (String.eqb token) tokens)).
    destruct (String.eqb_spec token state) as [<-|Hne]; cbn [List.length]; fold n.
    + destruct (JS.includes binaryStates token) eqn:Hbin.
      * by rewrite countState_binary.
      * rewrite countState_same by done. cbn [default].
        rewrite Nat2Z.inj_succ.
        destruct (Z.eqb_spec (Z.succ (Z.of_nat n)) 0) as [|_]; [lia|].
        generalize (default 0 (mapGet token counts)) as d. intros d.
        destruct (Z.eqb_spec (Z.of_nat n) 0) as [->|_];
          apply (f_equal Some); unfold id; lia.
    + rewrite countState_other by done. reflexivity.
Qed.

Lemma countAll_get (token : string) (tokens : list string) :
  mapGet token (countAll tokens)
  = if JS.includes binaryStates token then None
    else if occurrences token tokens =? 0 then None
         else Some (occurrences token tokens).
Proof.
  unfold countAll. rewrite counters_after. cbn [mapGet List.find fmap option_fmap option_map default].
  by destruct (JS.includes binaryStates token), (occurrences token tokens =? 0).
Qed.

Lemma complete_iff (state : string) :
  JS.includes completeStates state = bool_decide (state = "x" \/ state = "X").
Proof.
  unfold JS.includes, completeStates. cbn.
  destruct (String.eqb_spec state "x"), (String.eqb_spec state "X");
    cbn; symmetry; (apply bool_decide_eq_true + apply bool_decide_eq_false); tauto.
Qed.

End Counters.

(** ** Lookups in the index store *)

Section Stores.

Lemma storeAll_lookup_ne (name : string) (entries : list (string * Stored))
    (store : gmap (string * string) Stored) (page k : string) :
  (page = name -> ~ In k (fst <$> entries)) ->
  Syscall.storeAll name entries store !! (page, k) = store !! (page, k).
Proof.
  revert store. induction entries as [|[k' v'] entries IH]; intros store Hfresh; [done|].
  unfold Syscall.storeAll in *. cbn [foldl]. rewrite IH.
  - apply lookup_insert_ne. intros [= -> ->]. apply Hfresh; [done|]. cbn. auto.
  - intros Hp. specialize (Hfresh Hp). cbn in Hfresh. tauto.
Qed.

Lemma storeAll_lookup_last (name : string) (before : list (string * Stored))
    (k : string) (v : Stored) (after : list (string * Stored))
    (store : gmap (string * string) Stored) :
  ~ In k (fst <$> after) ->
  Syscall.storeAll name (before ++ (k, v) :: after)%list store !! (name, k) = Some v.
Proof.
  intros Hfresh. unfold Syscall.storeAll. rewrite foldl_app. cbn [foldl].
  fold (Syscall.storeAll name before store).
  fold (Syscall.storeAll name after
          (<[(name, k) := v]> (Syscall.storeAll name before store))).
  rewrite storeAll_lookup_ne by done. apply lookup_insert_eq.
Qed.

Lemma storeAll_keeps (name : string) (entries : list (string * Stored))
    (store : gmap (string * string) Stored) (page k : string) :
  is_Some (store !! (page, k)) ->
  is_Some (Syscall.storeAll name entries store !! (page, k)).
Proof.
  revert store. induction entries as [|[k' v'] entries IH]; intros store Hin; [done|].
  unfold Syscall.storeAll in *. cbn [foldl]. apply IH.
  destruct (decide ((name, k') = (page, k))) as [->|Hne].
  - rewrite lookup_insert_eq. by eexists.
  - by rewrite lookup_insert_ne.
Qed.

Lemma entriesOf_lookup (store : gmap (string * string) Stored) (p k : string)
    (v : Stored) :
  In (mkEntry k p v) (Syscall.entriesOf store) <-> store !! (p, k) = Some v.
Proof.
  unfold Syscall.entriesOf. rewrite <- list_elem_of_In, list_elem_of_fmap. split.
  - intros ([[p' k'] v'] & [= -> -> ->] & Hin). by apply elem_of_map_to_list.
  - intros Hin. exists ((p, k), v). split; [done|]. by apply elem_of_map_to_list.
Qed.

Lemma entriesWithPrefix_lookup (prefix : string) (w : World) (p k : string)
    (v : Stored) :
  In (mkEntry k p v) (Syscall.entriesWithPrefix prefix w)
  <-> indexStore w !! (p, k) = Some v /\ JS.startsWith prefix k = true.
Proof.
  unfold Syscall.entriesWithPrefix. by rewrite filter_In, entriesOf_lookup.
Qed.

Lemma startsWith_app (p rest : string) : JS.startsWith p (p +:+ rest) = true.
Proof.
  unfold JS.startsWith. induction p as [|a p IH]; [reflexivity|].
  cbv [String.append]. cbn [JS.stripPrefix]. fold (String.append p rest).
  by rewrite Ascii.eqb_refl.
Qed.

Lemma count_key_is_no_task_key (state : string) :
  JS.startsWith "task:" ("taskState:" +:+ state) = false.
Proof. reflexivity. Qed.

Lemma task_key_is_no_count_key (rest : string) :
  JS.startsWith "taskState:" ("task:" +:+ rest) = false.
Proof. reflexivity. Qed.

Lemma count_key_inj (a b : string) :
  "taskState:" +:+ a = "taskState:" +:+ b -> a = b.
Proof. cbv [String.append]. by intros [= ->]. Qed.

(** The keys of the counters stay distinct. *)
Lemma mapSet_keys (k : string) (v : Z) (m : list (string * Z)) (x : string) :
  In x (fst <$> mapSet k v m) <-> x = k \/ In x (fst <$> m).
Proof.
  induction m as [|[k' v'] m IH]; cbn [mapSet].
  - cbn. intuition congruence.
  - destruct (String.eqb_spec k' k) as [->|Hne]; cbn [fmap list_fmap fst In] in *.
    + intuition congruence.
    + rewrite IH. intuition congruence.
Qed.

Lemma mapSet_distinct (k : string) (v : Z) (m : list (string * Z)) :
  List.NoDup (fst <$> m) -> List.NoDup (fst <$> mapSet k v m).
Proof.
  induction m as [|[k' v'] m IH]; cbn [mapSet].
  - intros _. cbn. constructor; [tauto|constructor].
  - destruct (String.eqb_spec k' k) as [->|Hne]; cbn [fmap list_fmap fst]; [done|].
    intros [Hfresh Hnd]%List.NoDup_cons_iff. constructor; [|by apply IH].
    fold (fst <$> mapSet k v m). rewrite mapSet_keys. intuition congruence.
Qed.

Lemma countState_distinct (state : string) (counts : list (string * Z)) :
  List.NoDup (fst <$> counts) -> List.NoDup (fst <$> countState state counts).
Proof.
  intros Hnd. unfold countState. destruct (_ && _)%bool; [|done].
  destruct (mapGet state counts); by apply mapSet_distinct.
Qed.

Lemma countAll_distinct (tokens : list string) :
  List.NoDup (fst <$> countAll tokens).
Proof.
  unfold countAll.
  assert (forall counts, List.NoDup (fst <$> counts) ->
            List.NoDup (fst <$> foldl (fun counts state => countState state counts)
                                  counts tokens)) as Hall.
  { induction tokens as [|state tokens IH]; intros counts Hnd; [done|].
    cbn [foldl]. by apply IH, countState_distinct. }
  apply Hall. constructor.
Qed.

Lemma mapGet_In (k : string) (v : Z) (m : list (string * Z)) :
  mapGet k m = Some v -> In (k, v) m.
Proof.
  unfold mapGet. induction m as [|[k' v'] m IH]; cbn [List.find fst]; [done|].
  destruct (String.eqb_spec k' k) as [->|Hne].
  - intros [= <-]. by left.
  - intros Hfound. right. by apply IH.
Qed.

Lemma mapGet_of_In (k : string) (v : Z) (m : list (string * Z)) :
  List.NoDup (fst <$> m) -> In (k, v) m -> mapGet k m = Some v.
Proof.
  unfold mapGet. induction m as [|[k' v'] m IH]; cbn [List.find fst]; [done|].
  cbn [fmap list_fmap fst]. intros [Hfresh Hnd]%List.NoDup_cons_iff [Hin|Hin].
  - injection Hin as -> ->. by rewrite String.eqb_refl.
  - destruct (String.eqb_spec k' k) as [->|Hne]; [|by apply IH].
    exfalso. apply Hfresh, list_elem_of_In, list_elem_of_fmap.
    exists (k, v). split; [done|]. by apply list_elem_of_In.
Qed.

End Stores.

(** ** Index passes *)

Section Passes.
Context `{Library}.

Lemma storeAll_union (name : string) (entries : list (string * Stored))
    (store : gmap (string * string) Stored) :
  Syscall.storeAll name entries store
  = list_to_map (reverse (scoped name entries)) ∪ store.
Proof.
  revert store. induction entries as [|[k v] entries IH]; intros store.
  - cbn. by rewrite (left_id_L ∅ (∪)).
  - unfold Syscall.storeAll in *. cbn [foldl]. rewrite IH.
    unfold scoped. cbn [fmap list_fmap]. rewrite reverse_cons, list_to_map_app.
    cbn [list_to_map foldr]. rewrite insert_union_singleton_l.
    rewrite <- (assoc_L (∪)). f_equal.
Qed.

Lemma storeAll_twice (name : string) (entries : list (string * Stored))
    (store : gmap (string * string) Stored) :
  Syscall.storeAll name entries (Syscall.storeAll name entries store)
  = Syscall.storeAll name entries store.
Proof.
  rewrite !storeAll_union, (assoc_L (∪)). f_equal. apply (idemp_L (∪)).
Qed.

Lemma storeAll_app (name : string) (first second : list (string * Stored))
    (store : gmap (string * string) Stored) :
  Syscall.storeAll name second (Syscall.storeAll name first store)
  = Syscall.storeAll name (first ++ second)%list store.
Proof. unfold Syscall.storeAll. by rewrite foldl_app. Qed.

(** What a pass is, in one piece: the two batches and the attribute
    call, whatever the world. *)
Lemma indexTasks_run (name : string) (tree : ParseTree) (w : World) :
  indexTasks name tree w
  = match extractTasks name tree with
    | Threw => mkResult Threw w []
    | Done found =>
        let records := (fun '(k, task) => (k, STask task)) <$> tasks found in
        let counts := (fun '(state, count) => ("taskState:" +:+ state, SCount count))
                        <$> taskStates found in
        mkResult (Done tt)
          (mkWorld (editorText w) (pages w)
             (Syscall.storeAll name (records ++ counts)%list (indexStore w)))
          [EvBatchSet name records;
           EvIndexAttributes name (allAttributes found) "task";
           EvBatchSet name counts]
    end.
Proof.
  unfold indexTasks. destruct (extractTasks name tree) as [found|]; [|reflexivity].
  cbv zeta. rewrite <- storeAll_app. reflexivity.
Qed.

(** C8: a pass makes three calls: the batch of its task records, each
    under the key [task:] followed by the offset at which its task node
    starts, the attribute call, and the batch of its counts, each under
    [taskState:] followed by the state, the count being the number of
    tasks of the document in that custom state.  A second pass over the
    same document, run in the world the first pass left, makes the same
    calls as the first -- the same records under the same keys, the same
    counts -- ends the same way and leaves the index as the first pass
    left it; the batches of a pass do not depend on the world it starts
    from, so no count is carried over from an earlier pass: after the
    second pass the index holds, for every counted state, the count of
    one pass, and, when the keys of the records are distinct, every
    record under its key. *)
Theorem indexing_twice_is_indexing_once (name : string) (tree : ParseTree)
    (w : World) :
  let first := indexTasks name tree w in
  let second := indexTasks name tree (final first) in
  events second = events first
  /\ outcome second = outcome first
  /\ final second = final first
  /\ (forall w', events (indexTasks name tree w') = events first)
  /\ (forall found,
        extractTasks name tree = Done found ->
        let records := (fun '(k, task) => (k, STask task)) <$> tasks found in
        let counts := (fun '(state, count) => ("taskState:" +:+ state, SCount count))
                        <$> taskStates found in
        events first
        = [EvBatchSet name records;
           EvIndexAttributes name (allAttributes found) "task";
           EvBatchSet name counts]
        /\ indexStore (final second)
           = Syscall.storeAll name (records ++ counts)%list (indexStore w)
        /\ Forall2 (fun n record =>
                      exists attrs n3,
                        prepared name n = Done (attrs, n3)
                        /\ record.1 = "task:" +:+ JS.numToString (nodeFrom n3))
             (taskNodes (removeQueries tree)) (tasks found)
        /\ (exists states,
              Forall2 (fun n state => stateOf n = Done state)
                (taskNodes (removeQueries tree)) states
              /\ forall token,
                   mapGet token (taskStates found)
                   = if JS.includes binaryStates token then None
                     else if occurrences token states =? 0 then None
                          else Some (occurrences token states))
        /\ (forall state count,
              mapGet state (taskStates found) = Some count ->
              indexStore (final second) !! (name, "taskState:" +:+ state)
              = Some (SCount count))
        /\ (List.NoDup (fst <$> tasks found) ->
            forall k task,
              In (k, task) (tasks found) ->
              indexStore (final second) !! (name, k) = Some (STask task))).
Proof.
  cbv zeta. rewrite !indexTasks_run.
  destruct (extractTasks name tree) as [found|] eqn:Hfound;
    cbn [outcome final events].
  2:{ split; [reflexivity|]. split; [reflexivity|]. split; [reflexivity|].
      split; [|discriminate]. intros w'. by rewrite indexTasks_run, Hfound. }
  set (records := (fun '(k, task) => (k, STask task)) <$> tasks found).
  set (counts := (fun '(state, count) => ("taskState:" +:+ state, SCount count))
                   <$> taskStates found).
  cbn [editorText pages indexStore]. rewrite storeAll_twice.
  split; [reflexivity|]. split; [reflexivity|]. split; [reflexivity|].
  split; [intros w'; by rewrite indexTasks_run, Hfound|].
  intros found' [= <-]. fold records counts.
  destruct (extractTasks_records _ _ _ Hfound) as (items & Hrec & Htasks & Hstates).
  split; [reflexivity|]. split; [reflexivity|]. split; [|split; [|split]].
  - rewrite Htasks. apply Forall2_fmap_r. eapply Forall2_impl; [exact Hrec|].
    intros n [state entry] (_ & attrs & n3 & Hprep & Hkey & _). eauto.
  - exists (fst <$> items). split.
    + apply Forall2_fmap_r. eapply Forall2_impl; [exact Hrec|].
      by intros n item [Hstate _].
    + intros token. rewrite Hstates. apply countAll_get.
  - intros state count Hcount.
    pose proof (countAll_distinct (fst <$> items)) as Hdistinct.
    rewrite <- Hstates in Hdistinct.
    destruct (in_split _ _ (mapGet_In _ _ _ Hcount)) as (before & rest & Hsplit).
    subst counts. rewrite Hsplit, fmap_app, fmap_cons, app_assoc.
    apply storeAll_lookup_last.
    rewrite Hsplit, fmap_app, fmap_cons in Hdistinct.
    apply List.NoDup_remove_2 in Hdistinct. cbn [fst] in Hdistinct.
    intros Hlater.
    apply list_elem_of_In, list_elem_of_fmap in Hlater as ([k' v] & Hk & Hlater).
    apply list_elem_of_fmap in Hlater as ([state' count'] & [= -> ->] & Hlater).
    cbn [fst] in Hk. apply count_key_inj in Hk. subst state'.
    apply Hdistinct, in_app_iff. right. apply list_elem_of_In, list_elem_of_fmap.
    by exists (state, count').
  - intros Hdistinct k task Hin.
    assert (exists offset, k = "task:" +:+ JS.numToString offset) as [offset ->].
    { rewrite Htasks in Hin. apply list_elem_of_In in Hin.
      apply list_elem_of_fmap in Hin as ([state entry] & Hentry & Hin).
      cbn [snd] in Hentry. subst entry.
      apply list_elem_of_lookup in Hin as [i Hi].
      destruct (Forall2_lookup_r _ _ _ _ _ Hrec Hi) as (n & _ & Hn).
      destruct Hn as (_ & attrs & n3 & _ & Hkey & _). cbn [fst snd] in Hkey. eauto. }
    destruct (in_split _ _ Hin) as (before & rest & Hsplit).
    subst records. rewrite Hsplit, fmap_app, fmap_cons, <- app_assoc, <- app_comm_cons.
    apply storeAll_lookup_last.
    rewrite Hsplit, fmap_app, fmap_cons in Hdistinct.
    apply List.NoDup_remove_2 in Hdistinct. cbn [fst] in Hdistinct.
    intros Hlater. rewrite fmap_app in Hlater. apply in_app_iff in Hlater.
    destruct Hlater as [Hlater|Hlater].
    + apply Hdistinct, in_app_iff. right.
      apply list_elem_of_In, list_elem_of_fmap in Hlater as ([k' v] & Hk & Hlater).
      apply list_elem_of_fmap in Hlater as ([k'' task'] & [= -> ->] & Hlater).
      cbn [fst] in Hk. rewrite Hk. apply list_elem_of_In, list_elem_of_fmap.
      by exists (k'', task').
    + apply list_elem_of_In, list_elem_of_fmap in Hlater as ([k' v] & Hk & Hlater).
      apply list_elem_of_fmap in Hlater as ([state count] & [= -> ->] & _).
      cbn [fst] in Hk. apply (f_equal (JS.startsWith "task:")) in Hk.
      by rewrite startsWith_app, count_key_is_no_task_key in Hk.
Qed.

End Passes.

Lemma indexing_twice_is_indexing_once_witness :
  let twice :=
    final (@indexTasks Scenario.lib "Plans" (Demo.place 0 Scenario.plans)
             (final (@indexTasks Scenario.lib "Plans" (Demo.place 0 Scenario.plans)
                       Scenario.emptyWorld))) in
  indexStore twice !! ("Plans", "taskState:?") = Some (SCount 1)
  /\ indexStore twice !! ("Plans", "task:2")
     = Some (STask (<["name" := VStr "ship"]> (blankTask "?"))).
Proof.
  destruct (@indexing_twice_is_indexing_once Scenario.lib "Plans"
              (Demo.place 0 Scenario.plans) Scenario.emptyWorld)
    as (_ & _ & _ & _ & Hstored).
  destruct (Hstored _ eq_refl) as (_ & _ & _ & _ & Hcount & Hrecord).
  split.
  - apply (Hcount "?" 1). reflexivity.
  - apply Hrecord.
    + vm_compute. constructor; [tauto|constructor].
    + vm_compute. by left.
Defined.

(** ** Records and their decoration *)

Section Records.
Context `{Library}.

(** C7, as amended: for every task record of a pass whose task carries
    no attribute named [done], [done] is the boolean that is true exactly
    when the state token is [x] or [X]; and the counter the pass holds
    for a token is the number of its tasks with that token, present only
    for a token that occurs and is none of the blank, [x] and [X]. *)
Theorem done_follows_state_token (name : string) (tree : ParseTree)
    (found : Extraction) :
  extractTasks name tree = Done found ->
  exists states : list string,
    Forall2 (fun n state => stateOf n = Done state)
      (taskNodes (removeQueries tree)) states
    /\ Forall2 (fun n record =>
                  exists state attrs n3,
                    stateOf n = Done state
                    /\ prepared name n = Done (attrs, n3)
                    /\ (~ In "done" (fst <$> attrs) ->
                        record.2 !! "done"
                        = Some (VBool (bool_decide (state = "x" \/ state = "X")))))
         (taskNodes (removeQueries tree)) (tasks found)
    /\ forall token,
         mapGet token (taskStates found)
         = if JS.includes binaryStates token then None
           else if occurrences token states =? 0 then None
                else Some (occurrences token states).
Proof.
  intros Hfound.
  destruct (extractTasks_records _ _ _ Hfound) as (items & Hrec & -> & ->).
  exists (fst <$> items). split; [|split].
  - apply Forall2_fmap_r. eapply Forall2_impl; [exact Hrec|].
    by intros n item [Hstate _].
  - apply Forall2_fmap_r. eapply Forall2_impl; [exact Hrec|].
    intros n [state [k task]] (Hstate & attrs & n3 & Hattrs & _ & Hkept).
    exists state, attrs, n3. split; [done|]. split; [done|].
    intros Hfree. cbn [fst snd] in *. rewrite Hkept; [|cbn; intuition congruence|done].
    unfold blankTask. rewrite lookup_insert_ne by done.
    by rewrite lookup_insert_eq, complete_iff.
  - intros token. apply countAll_get.
Qed.

Lemma queryProvider_run (query : Query) (w : World) :
  queryProvider query w
  = mkResult
      (Done (applyQuery query (decorate <$> Syscall.entriesWithPrefix "task:" w)))
      w [EvQueryPrefix "task:"].
Proof. reflexivity. Qed.

(** X21: the query provider asks the index for the entries under
    [task:] and leaves the world as it is; what it answers is what the
    query evaluator makes of these entries, each the stored record with
    a [page] and a numeric [pos] that come from the entry's page
    annotation and from the segment of its key after [task:], where that
    is read as an integer (the offset itself, for a key that a pass
    wrote), whatever the stored record holds; and a record of a pass
    holds a [page] or a [pos] only when its task carries an attribute of
    that name. *)
Theorem position_comes_from_key (query : Query) (w : World) (name : string)
    (tree : ParseTree) (found : Extraction) :
  extractTasks name tree = Done found ->
  events (queryProvider query w) = [EvQueryPrefix "task:"]
  /\ final (queryProvider query w) = w
  /\ (forall records,
        outcome (queryProvider query w) = Done records ->
        records = applyQuery query (decorate <$> Syscall.entriesWithPrefix "task:" w))
  /\ (forall e, decorate e !! "page" = Some (VStr (page e)))
  /\ (forall e position,
        JS.toNumber (keySegment (key e)) = Some position ->
        decorate e !! "pos" = Some (VNum (Some position)))
  /\ (forall e offset,
        key e = "task:" +:+ JS.numToString offset ->
        decorate e !! "pos" = Some (VNum (Some offset)))
  /\ Forall2 (fun n record =>
                exists attrs n3,
                  prepared name n = Done (attrs, n3)
                  /\ (~ In "page" (fst <$> attrs) -> record.2 !! "page" = None)
                  /\ (~ In "pos" (fst <$> attrs) -> record.2 !! "pos" = None))
       (taskNodes (removeQueries tree)) (tasks found).
Proof.
  intros Hfound. rewrite queryProvider_run. cbn [outcome final events].
  split; [reflexivity|]. split; [reflexivity|]. split; [by intros records [= <-]|].
  split; [|split; [|split]].
  - intros e. unfold decorate.
    rewrite lookup_insert_ne by done. by rewrite lookup_insert_eq.
  - intros e position Hread. unfold decorate. by rewrite lookup_insert_eq, Hread.
  - intros e offset Hkey. unfold decorate.
    by rewrite lookup_insert_eq, Hkey, keySegment_of_offset, toNumber_numToString.
  - destruct (extractTasks_records _ _ _ Hfound) as (items & Hrec & -> & _).
    apply Forall2_fmap_r. eapply Forall2_impl; [exact Hrec|].
    intros n [state [k task]] (Hstate & attrs & n3 & Hattrs & _ & Hkept).
    exists attrs, n3. split; [done|]. cbn [fst snd] in *.
    split; intros Hfree; (rewrite Hkept; [|cbn; intuition congruence|done]);
      unfold blankTask; by rewrite !lookup_insert_ne, lookup_empty.
Qed.

End Records.

(** C7, the claim as stated fails: the task [- [x] Pay rent done:: false]
    has the state token [x] and a record whose [done] is not true. *)
Lemma attribute_overrides_done :
  ~ @doneIffComplete Scenario.lib "Bills" (Demo.place 0 Scenario.rentDone).
Proof.
  intros Hclaim. specialize (Hclaim _ eq_refl).
  apply Forall2_cons_1 in Hclaim as [(state & Hstate & Hdone) _].
  vm_compute in Hstate. injection Hstate as <-.
  destruct Hdone as [_ Hdone]. specialize (Hdone (or_introl eq_refl)).
  vm_compute in Hdone. discriminate.
Qed.

(** C9, the code at the failing input: the page [Bills] holds the task
    [- [ ] Pay rent page:: Archive].  The pass stores the attribute
    [page] in the record of the task, under the key [task:2], against
    the comment of lines 33-35 on the fields [pos] and [page], not saved
    but added when a record is pulled out; at query time line 331 puts
    the owning page over it. *)
Lemma attribute_stores_page :
  (exists record,
     indexStore Scenario.billsWorld !! ("Bills", "task:2") = Some (STask record)
     /\ record !! "page" = Some (VStr "Archive")
     /\ decorate (mkEntry "task:2" "Bills" (STask record)) !! "page"
        = Some (VStr "Bills"))
  /\ ~ @storesNoPosition Scenario.lib "Bills" (Demo.place 0 Scenario.rentPage).
Proof.
  split.
  - eexists. split; [by vm_compute|]. split; by vm_compute.
  - intros Hclaim. specialize (Hclaim _ eq_refl).
    apply Forall_cons_1 in Hclaim as [[Hpage _] _].
    vm_compute in Hpage. discriminate.
Qed.

Lemma done_follows_state_token_witness :
  exists states : list string,
    Forall2 (fun n state => stateOf n = Done state)
      (@taskNodes (Demo.place 0 Scenario.milk)) states.
Proof.
  destruct (@done_follows_state_token Scenario.lib "Groceries"
              (Demo.place 0 Scenario.milk) _ eq_refl) as (states & Hstates & _).
  by exists states.
Defined.

Lemma position_comes_from_key_witness :
  events (@queryProvider Scenario.lib tt Scenario.customWorld) = [EvQueryPrefix "task:"].
Proof.
  destruct (@position_comes_from_key Scenario.lib tt Scenario.customWorld
              "Groceries" (Demo.place 0 Scenario.milk) _ eq_refl) as [Hrun _].
  exact Hrun.
Defined.

Lemma milk_run :
  @extractTasks Scenario.lib "Groceries" (Demo.place 0 Scenario.milk)
  = Done (mkExtraction [("task:2", Scenario.milkExtracted)] []
            {[ "prio" := VStr "high" ]}).
Proof. vm_compute. reflexivity. Qed.

(** C6, as amended: the line [- [ ] Buy milk 📅 2024-01-05 #errand
    prio:: high] is extracted to one record under the key [task:2], with
    [done] false, a blank state, the deadline [2024-01-05], the tag
    [errand], [prio] [high], and the name [Buy milk  #errand]: the
    deadline and the attribute are gone from the name, the hashtag stays,
    and so do both blanks that stood around the deadline. *)
Theorem milk_line_record :
  Scenario.text Scenario.milk = Scenario.milkLine
  /\ @extractTasks Scenario.lib "Groceries" (Demo.place 0 Scenario.milk)
     = Done (mkExtraction [("task:2", Scenario.milkExtracted)] []
               {[ "prio" := VStr "high" ]})
  /\ Scenario.milkExtracted !! "name" = Some (VStr "Buy milk  #errand")
  /\ Scenario.milkExtracted !! "done" = Some (VBool false)
  /\ Scenario.milkExtracted !! "state" = Some (VStr " ")
  /\ Scenario.milkExtracted !! "deadline" = Some (VStr "2024-01-05")
  /\ Scenario.milkExtracted !! "tags" = Some (VList ["errand"])
  /\ Scenario.milkExtracted !! "prio" = Some (VStr "high")
  /\ size Scenario.milkExtracted = 6%nat.
Proof.
  split; [vm_compute; reflexivity|]. split; [exact milk_run|].
  repeat split; vm_compute; reflexivity.
Qed.

(** C6, the claim as stated fails: the record extracted from the line
    is not the expected one, whose name has a single blank before the
    hashtag. *)
Lemma milk_name_keeps_both_blanks :
  ~ (exists found,
       @extractTasks Scenario.lib "Groceries" (Demo.place 0 Scenario.milk) = Done found
       /\ snd <$> tasks found = [Scenario.milkExpected]).
Proof.
  intros (found & Hfound & Hrecords).
  rewrite milk_run in Hfound. injection Hfound as <-.
  apply (f_equal (fmap (fun task : Obj => task !! "name"))) in Hrecords.
  vm_compute in Hrecords. discriminate.
Qed.

(** * Further properties *)

(** ** Substrings *)

Section Substrings.


Lemma append_cons (c : ascii) (a b : string) :
  String c a +:+ b = String c (a +:+ b).
Proof. reflexivity. Qed.





End Substrings.

(** ** Backlinks into the open page *)

Section OpenPage.
Context `{Library}.


(** Wiki links whose text holds no [@] are ordinary page links: the loop
    passes over them without a syscall and runs to its end. *)
Lemma propagateAll_plain (pageName stateText changeTo : string)
    (parentWikiLinks : list ParseTree) (w : World) :
  forallb (fun wikiLink => negb (isBacklink wikiLink)) parentWikiLinks = true ->
  propagateAll pageName stateText changeTo parentWikiLinks w
  = mkResult (Done Next) w [].
Proof.
  induction parentWikiLinks as [|wikiLink rest IH]; [reflexivity|].
  cbn [forallb]. intros [Hplain Hrest]%andb_true_iff.
  cbn [propagateAll]. rewrite bind_run.
  assert (propagateTo pageName stateText changeTo wikiLink w = mkResult (Done Next) w [])
    as ->.
  { unfold propagateTo, isBacklink in *.
    destruct (childText wikiLink 0) as [ref|]; [|discriminate]. run.
    apply negb_true_iff in Hplain. by rewrite Hplain. }
  cbn [outcome final events]. by rewrite (IH Hrest).
Qed.

(** X2: a cycle on a task whose wiki links are all ordinary page links
    is one edit: when the state marker lies within the buffer, the call
    returns, its one write is the replacement of the marker's range by
    the new token, and pages and index are left as they are. *)
Theorem cycle_without_backlinks_is_one_edit (pageName : string) (root : ParseTree)
    (p : Path) (w : World) (node marker parent : ParseTree)
    (stateText changeTo : string) (asked : list Event) :
  subtree root p = Some node ->
  childAt node 1 = Done (Some marker) ->
  nodeText marker = Some stateText ->
  chooseNextState stateText w = mkResult (Done (Some changeTo)) w asked ->
  parentPath p ≫= subtree root = Some parent ->
  forallb (fun wikiLink => negb (isBacklink wikiLink))
    (collectNodesMatching (hasType "WikiLinkPage") parent) = true ->
  0 <= nodeFrom marker <= nodeTo marker ->
  nodeTo marker <= Z.of_nat (String.length (editorText w)) ->
  cycleTaskState pageName root p w
  = mkResult (Done tt)
      (mkWorld
         (Syscall.replaceRange (editorText w) (nodeFrom marker) (nodeTo marker) changeTo)
         (pages w) (indexStore w))
      (asked ++ [EvDispatch (Some (nodeFrom marker)) (Some (nodeTo marker)) changeTo]).
Proof.
  intros Hnode Hchild Htext Hnext Hparent Hplain Hrange Hend. unfold cycleTaskState.
  rewrite Hnode. cbn [assertPresent]. run.
  unfold childText. rewrite Hchild. cbn [mbind Outcome_bind assertPresent].
  rewrite Htext. cbn [assertPresent]. run. rewrite Hnext. run.
  unfold Syscall.dispatch.
  assert (((0 <=? nodeFrom marker) && (nodeFrom marker <=? nodeTo marker)
           && (nodeTo marker <=? Z.of_nat (String.length (editorText w))))%bool = true)
    as ->.
  { rewrite !andb_true_iff. lia. }
  run. rewrite Hparent. cbn [assertPresent]. run.
  rewrite (propagateAll_plain _ _ _ _ _ Hplain). run. reflexivity.
Qed.

End OpenPage.


Lemma cycle_without_backlinks_is_one_edit_witness :
  final (@cycleTaskState Scenario.lib "Notes" (Demo.place 0 Scenario.notes)
           Scenario.statePath (mkWorld "- [x] call" ∅ ∅))
  = mkWorld "- [ ] call" ∅ ∅.
Proof.
  rewrite (@cycle_without_backlinks_is_one_edit Scenario.lib "Notes"
             (Demo.place 0 Scenario.notes) Scenario.statePath
             (mkWorld "- [x] call" ∅ ∅)
             (Node "TaskState" 2 5
                [Node "TaskMarker" 2 3 [TextNode 2 3 "["]; TextNode 3 4 "x";
                 Node "TaskMarker" 4 5 [TextNode 4 5 "]"]])
             (TextNode 3 4 "x")
             (Node "Task" 2 10
                [Node "TaskState" 2 5
                   [Node "TaskMarker" 2 3 [TextNode 2 3 "["]; TextNode 3 4 "x";
                    Node "TaskMarker" 4 5 [TextNode 4 5 "]"]];
                 TextNode 5 10 " call"])
             "x" " " []);
    [reflexivity | reflexivity | reflexivity | reflexivity | reflexivity
    | reflexivity | reflexivity | cbn; lia | cbn; lia].
Defined.

(** ** Rounds of the custom cycle *)

Section Rounds.

Lemma indexOf_nth_at (x : string) (l : list string) (i : nat) :
  JS.indexOf x l = Some i -> nth i l "" = x /\ (i < List.length l)%nat.
Proof.
  revert i. induction l as [|y l IH]; intros i; cbn [JS.indexOf]; [discriminate|].
  destruct (String.eqb y x) eqn:Hy.
  - intros [= <-]. apply String.eqb_eq in Hy. cbn. split; [done|lia].
  - destruct (JS.indexOf x l) as [j|]; [|discriminate].
    intros [= <-]. destruct (IH j eq_refl) as [Hnth Hlt]. cbn. split; [done|lia].
Qed.

Lemma indexOf_of_In (x : string) (l : list string) :
  In x l -> exists i, JS.indexOf x l = Some i.
Proof.
  induction l as [|y l IH]; [done|]. cbn [JS.indexOf].
  destruct (String.eqb y x) eqn:Hy; [by exists O|].
  intros [->|Hin]; [by rewrite String.eqb_refl in Hy|].
  destruct (IH Hin) as [i ->]. by exists (S i).
Qed.

Lemma indexOf_distinct (l : list string) (j : nat) :
  List.NoDup l -> (j < List.length l)%nat -> JS.indexOf (nth j l "") l = Some j.
Proof.
  revert j. induction l as [|y l IH]; intros j Hnd Hlt; [cbn in Hlt; lia|].
  apply List.NoDup_cons_iff in Hnd as [Hfresh Hnd]. destruct j as [|j].
  - cbn. by rewrite String.eqb_refl.
  - cbn [nth JS.indexOf]. cbn in Hlt.
    destruct (String.eqb y (nth j l "")) eqn:Hy.
    + apply String.eqb_eq in Hy. subst y. exfalso. apply Hfresh, nth_In. lia.
    + rewrite IH by (done || lia). reflexivity.
Qed.

Lemma statesOf_distinct (w : World) : List.NoDup (statesOf w).
Proof. apply sort_distinct, dedupe_distinct. Qed.

Lemma nextOf_custom (w : World) (stateText : string) :
  JS.includes binaryStates stateText = false ->
  nextOf w stateText
  = i ← JS.indexOf stateText (statesOf w);
    Some (nth ((i + 1) `mod` List.length (statesOf w))%nat (statesOf w) "").
Proof.
  intros [Hc Hi]%binary_split. unfold nextOf.
  rewrite (chooseNextState_custom _ _ Hc Hi). cbv zeta. fold (statesOf w).
  destruct (JS.indexOf stateText (statesOf w)); reflexivity.
Qed.

(** X3: cycling a custom token succeeds exactly when the token is one of
    the known states, and then the token it changes to is a known state
    again: the cycle never leads out of the table it reads. *)
Theorem custom_cycle_stays_known (w : World) (stateText : string) :
  JS.includes binaryStates stateText = false ->
  (In stateText (statesOf w) <-> nextOf w stateText <> None)
  /\ (forall next, nextOf w stateText = Some next -> In next (statesOf w)).
Proof.
  intros Hcustom. rewrite (nextOf_custom _ _ Hcustom). split; [split|].
  - intros [i ->]%indexOf_of_In. done.
  - destruct (JS.indexOf stateText (statesOf w)) as [i|] eqn:Hidx; [|done].
    intros _. destruct (indexOf_nth_at _ _ _ Hidx) as [<- Hlt]. by apply nth_In.
  - intros next.
    destruct (JS.indexOf stateText (statesOf w)) as [i|] eqn:Hidx; [|done].
    destruct (indexOf_nth_at _ _ _ Hidx) as [_ Hlt].
    cbn [mbind option_bind]. intros [= <-]. apply nth_In.
    apply Nat.mod_upper_bound. lia.
Qed.

(** X4: when every known state is a custom one, [k] cycles move a known
    state [k] places on in the sorted table, cyclically; as many cycles
    as there are known states lead back to the state, and every known
    state is met on the way. *)
Theorem custom_cycle_is_a_rotation (w : World) (stateText : string) (i : nat) :
  Forall (fun s => JS.includes binaryStates s = false) (statesOf w) ->
  JS.indexOf stateText (statesOf w) = Some i ->
  (forall k,
     cycleTimes w k stateText
     = Some (nth ((i + k) `mod` List.length (statesOf w))%nat (statesOf w) ""))
  /\ cycleTimes w (List.length (statesOf w)) stateText = Some stateText
  /\ (forall other,
        In other (statesOf w) ->
        exists k, (k < List.length (statesOf w))%nat
                  /\ cycleTimes w k stateText = Some other).
Proof.
  intros Hcustom Hidx. destruct (indexOf_nth_at _ _ _ Hidx) as [Hself Hlt].
  set (states := statesOf w) in *. set (n := List.length states) in *.
  assert (forall k, cycleTimes w k stateText = Some (nth ((i + k) `mod` n)%nat states ""))
    as Hrounds.
  { induction k as [|k IH].
    - rewrite Nat.add_0_r, Nat.mod_small by done. by rewrite Hself.
    - change (cycleTimes w (S k) stateText)
        with (cycleTimes w k stateText ≫= nextOf w).
      rewrite IH. cbn [mbind option_bind].
      assert ((i + k) `mod` n < n)%nat as Hin by (apply Nat.mod_upper_bound; lia).
      rewrite nextOf_custom.
      2:{ rewrite Forall_forall in Hcustom. apply Hcustom, list_elem_of_In.
          by apply nth_In. }
      fold states n. rewrite indexOf_distinct by (apply statesOf_distinct || done).
      cbn [mbind option_bind]. do 2 f_equal.
      rewrite Nat.Div0.add_mod_idemp_l. f_equal. lia. }
  split; [exact Hrounds|]. split.
  - rewrite Hrounds. replace (i + n)%nat with (i + 1 * n)%nat by lia.
    rewrite Nat.Div0.mod_add, Nat.mod_small by done. by rewrite Hself.
  - intros other [j Hj]%indexOf_of_In.
    destruct (indexOf_nth_at _ _ _ Hj) as [<- Hjlt]. fold n in Hjlt.
    destruct (le_lt_dec i j) as [Hle|Hgt].
    + exists (j - i)%nat. split; [lia|]. rewrite Hrounds.
      replace (i + (j - i))%nat with j by lia. by rewrite Nat.mod_small.
    + exists (j + n - i)%nat. split; [lia|]. rewrite Hrounds.
      replace (i + (j + n - i))%nat with (j + 1 * n)%nat by lia.
      by rewrite Nat.Div0.mod_add, Nat.mod_small.
Qed.

End Rounds.

Lemma custom_cycle_stays_known_witness :
  (In "-" (statesOf Scenario.customWorld)
   <-> nextOf Scenario.customWorld "-" <> None)
  /\ (forall next, nextOf Scenario.customWorld "-" = Some next ->
        In next (statesOf Scenario.customWorld)).
Proof.
  apply (custom_cycle_stays_known Scenario.customWorld "-").
  reflexivity.
Defined.

Lemma custom_cycle_is_a_rotation_witness :
  cycleTimes Scenario.customWorld 3 "-" = Some "-"
  /\ cycleTimes Scenario.customWorld 2 "-" = Some "!".
Proof.
  destruct (custom_cycle_is_a_rotation Scenario.customWorld "-" 1)
    as (Hrounds & Hback & _).
  - vm_compute. repeat constructor.
  - vm_compute. reflexivity.
  - split; [exact Hback|]. rewrite Hrounds. vm_compute. reflexivity.
Defined.

Section Frames.
Context `{Library}.

Lemma traverse_no_tasks (name : string) (t : ParseTree) :
  taskNodes t = [] ->
  forall ctx acc, traverseTree (visitTask name) ctx t acc = Done acc.
Proof.
  induction t as [a b text|ty a b cs IH] using ParseTree_children_ind;
    intros Hnone ctx acc.
  - cbn [traverseTree]. by rewrite visitTask_other.
  - destruct (hasType "Task" (Node ty a b cs)) eqn:Hty.
    { by rewrite (taskNodes_task _ Hty) in Hnone. }
    rewrite (taskNodes_node _ _ _ _ Hty) in Hnone.
    cbn [traverseTree]. rewrite (visitTask_other _ _ _ _ Hty). orun. clear Hty.
    generalize (Node ty a b cs) as self. generalize O as i. intros i self.
    revert i acc. induction IH as [|c cs Hc _ IHcs]; intros i acc; cbn [eachChild].
    + reflexivity.
    + cbn [List.map List.concat] in Hnone.
      apply app_eq_nil in Hnone as [Hfirst Hrest].
      rewrite (Hc Hfirst). orun. by apply IHcs.
Qed.

(** The keys of the two batches of a pass. *)
Lemma record_keys (name : string) (tree : ParseTree) (found : Extraction)
    (k : string) :
  extractTasks name tree = Done found ->
  In k (fst <$> tasks found) ->
  exists offset, k = "task:" +:+ JS.numToString offset.
Proof.
  intros Hfound Hin.
  destruct (extractTasks_records _ _ _ Hfound) as (items & Hrec & Htasks & _).
  rewrite Htasks in Hin. apply list_elem_of_In in Hin.
  apply list_elem_of_fmap in Hin as ([k' task] & -> & Hin).
  apply list_elem_of_fmap in Hin as ([state entry] & Hentry & Hin).
  cbn [snd fst] in *. subst entry.
  apply list_elem_of_lookup in Hin as [i Hi].
  destruct (Forall2_lookup_r _ _ _ _ _ Hrec Hi) as (n & _ & Hn).
  destruct Hn as (_ & attrs & n3 & _ & Hkey & _). cbn [fst snd] in Hkey. eauto.
Qed.

Lemma batch_keys (found : Extraction) (k : string) :
  In k (fst <$> ((fun '(k, task) => (k, STask task)) <$> tasks found)
                ++ ((fun '(state, count) => ("taskState:" +:+ state, SCount count))
                      <$> taskStates found))%list ->
  In k (fst <$> tasks found)
  \/ exists state, k = "taskState:" +:+ state /\ In state (fst <$> taskStates found).
Proof.
  rewrite fmap_app, in_app_iff, <- !list_elem_of_In.
  intros [Hin|Hin]; [left|right].
  - apply list_elem_of_fmap in Hin as ([k' v] & -> & Hin).
    apply list_elem_of_fmap in Hin as ([k'' task] & [= -> ->] & Hin).
    apply list_elem_of_fmap. by exists (k'', task).
  - apply list_elem_of_fmap in Hin as ([k' v] & -> & Hin).
    apply list_elem_of_fmap in Hin as ([state count] & [= -> ->] & Hin).
    exists state. split; [done|]. apply list_elem_of_In, list_elem_of_fmap.
    by exists (state, count).
Qed.

(** X5: a document without a task node is extracted without a throw,
    to no record, no count and no attribute; every call the pass makes
    for it is a batch of no entries or the attribute call with no
    attribute, and the buffer, the pages and the index are as they
    were. *)
Theorem page_without_tasks_indexes_nothing (name : string) (tree : ParseTree)
    (w : World) :
  taskNodes (removeQueries tree) = [] ->
  extractTasks name tree = Done (mkExtraction [] [] ∅)
  /\ Forall (fun call => call = EvBatchSet name []
                         \/ call = EvIndexAttributes name ∅ "task")
       (events (indexTasks name tree w))
  /\ final (indexTasks name tree w) = w.
Proof.
  intros Hnone.
  assert (extractTasks name tree = Done (mkExtraction [] [] ∅)) as Hfound.
  { unfold extractTasks. by rewrite (traverse_no_tasks _ _ Hnone). }
  split; [exact Hfound|]. rewrite indexTasks_run, Hfound. cbv zeta. cbn.
  split; [|by destruct w].
  constructor; [by left|constructor; [by right|constructor; [by left|constructor]]].
Qed.

(** X6: the calls of a pass.  A pass leaves the open buffer and the
    stored pages as they are and makes no call but [batchSet] and
    [indexAttributes], each for the page of the pass: a batch entry that
    holds a task record has a key [task:] followed by an offset, one
    that holds a count has a key [taskState:] followed by a state that
    is not binary, and the count is at least one.  When the extraction
    throws, the pass throws before its first call. *)
Theorem pass_touches_only_its_own_keys (name : string) (tree : ParseTree)
    (w : World) :
  let pass := indexTasks name tree w in
  editorText (final pass) = editorText w
  /\ pages (final pass) = pages w
  /\ Forall (fun call =>
               match call with
               | EvBatchSet page entries =>
                   page = name
                   /\ Forall (fun entry : string * Stored =>
                                match entry.2 with
                                | STask _ =>
                                    exists offset,
                                      entry.1 = "task:" +:+ JS.numToString offset
                                | SCount count =>
                                    exists state,
                                      entry.1 = "taskState:" +:+ state
                                      /\ JS.includes binaryStates state = false
                                      /\ 1 <= count
                                end) entries
               | EvIndexAttributes page _ kind => page = name /\ kind = "task"
               | _ => False
               end) (events pass)
  /\ (extractTasks name tree = Threw -> pass = mkResult Threw w []).
Proof.
  cbv zeta. rewrite indexTasks_run.
  destruct (extractTasks name tree) as [found|] eqn:Hfound; cbv zeta;
    cbn [final outcome events editorText pages indexStore];
    [|by repeat split].
  split; [done|]. split; [done|]. split; [|discriminate].
  destruct (extractTasks_records _ _ _ Hfound) as (items & Hrec & Htasks & Hstates).
  constructor; [|constructor; [done|constructor; [|constructor]]].
  - split; [done|]. apply Forall_forall. intros [k v] Hin.
    apply list_elem_of_fmap in Hin as ([k' task] & [= -> ->] & Hin). cbn [fst snd].
    apply (record_keys name tree found); [done|].
    apply list_elem_of_In, list_elem_of_fmap. by exists (k', task).
  - split; [done|]. apply Forall_forall. intros [k v] Hin.
    apply list_elem_of_fmap in Hin as ([state count] & [= -> ->] & Hin).
    cbn [fst snd]. exists state. split; [done|].
    assert (mapGet state (taskStates found) = Some count) as Hcount.
    { apply mapGet_of_In; [|by apply list_elem_of_In].
      rewrite Hstates. apply countAll_distinct. }
    rewrite Hstates, countAll_get in Hcount.
    destruct (JS.includes binaryStates state); [discriminate|]. split; [done|].
    destruct (Z.eqb_spec (occurrences state (fst <$> items)) 0); [discriminate|].
    injection Hcount as <-. unfold occurrences in *. lia.
Qed.

(** X7: after a pass whose records have distinct keys, the query
    provider finds every record of the pass: it hands it to the query
    evaluator with the page of the pass as [page], the offset of the
    record's key as [pos], and every other field as the pass stored it;
    and no count of a pass is ever among the provider's records. *)
Theorem indexed_tasks_are_queried (query : Query) (name : string)
    (tree : ParseTree) (w : World) (found : Extraction) :
  extractTasks name tree = Done found ->
  List.NoDup (fst <$> tasks found) ->
  let after := final (indexTasks name tree w) in
  outcome (queryProvider query after)
  = Done (applyQuery query (decorate <$> Syscall.entriesWithPrefix "task:" after))
  /\ (forall k task,
        In (k, task) (tasks found) ->
        exists offset,
          k = "task:" +:+ JS.numToString offset
          /\ In (mkEntry k name (STask task)) (Syscall.entriesWithPrefix "task:" after)
          /\ decorate (mkEntry k name (STask task)) !! "page" = Some (VStr name)
          /\ decorate (mkEntry k name (STask task)) !! "pos" = Some (VNum (Some offset))
          /\ forall field, field <> "page" -> field <> "pos" ->
               decorate (mkEntry k name (STask task)) !! field = task !! field)
  /\ (forall e state world,
        In e (Syscall.entriesWithPrefix "task:" world) ->
        key e <> "taskState:" +:+ state).
Proof.
  intros Hfound Hdistinct. cbv zeta. split; [reflexivity|]. split.
  - intros k task Hin.
    assert (In k (fst <$> tasks found)) as Hkey.
    { apply list_elem_of_In, list_elem_of_fmap. exists (k, task).
      split; [done|]. by apply list_elem_of_In. }
    destruct (record_keys _ _ _ _ Hfound Hkey) as [offset ->]. exists offset.
    split; [reflexivity|]. split; [|split; [|split]].
    + apply entriesWithPrefix_lookup. split; [|apply startsWith_app].
      rewrite indexTasks_run, Hfound. cbv zeta. cbn [final indexStore].
      destruct (in_split _ _ Hin) as (before & rest & Hsplit).
      rewrite Hsplit, fmap_app, fmap_cons, <- app_assoc, <- app_comm_cons.
      apply storeAll_lookup_last.
      rewrite Hsplit, fmap_app, fmap_cons in Hdistinct.
      apply List.NoDup_remove_2 in Hdistinct. cbn [fst] in Hdistinct.
      intros Hlater. rewrite fmap_app in Hlater. apply in_app_iff in Hlater.
      destruct Hlater as [Hlater|Hlater].
      * apply Hdistinct, in_app_iff. right.
        apply list_elem_of_In, list_elem_of_fmap in Hlater as ([k' v] & Hk & Hlater).
        apply list_elem_of_fmap in Hlater as ([k'' task'] & [= -> ->] & Hlater).
        cbn [fst] in Hk. rewrite Hk. apply list_elem_of_In, list_elem_of_fmap.
        by exists (k'', task').
      * apply list_elem_of_In, list_elem_of_fmap in Hlater as ([k' v] & Hk & Hlater).
        apply list_elem_of_fmap in Hlater as ([state count] & [= -> ->] & _).
        cbn [fst] in Hk. apply (f_equal (JS.startsWith "task:")) in Hk.
        by rewrite startsWith_app, count_key_is_no_task_key in Hk.
    + unfold decorate. cbn [page]. rewrite lookup_insert_ne by done.
      by rewrite lookup_insert_eq.
    + unfold decorate. cbn [key].
      by rewrite lookup_insert_eq, keySegment_of_offset, toNumber_numToString.
    + intros field Hpage Hpos. unfold decorate. cbn [value spread].
      by rewrite !lookup_insert_ne.
  - intros e state world Hin Hkey.
    apply filter_In in Hin as [_ Hprefix].
    by rewrite Hkey, count_key_is_no_task_key in Hprefix.
Qed.

(** X8: after a pass, the count of every custom state of the document
    is in the index under the page of the pass and the key
    [taskState:] followed by the state; it is at least one; and when the
    state holds no colon, the state is a known state from then on, so a
    click on a task in that state changes it. *)
Theorem counted_state_can_be_cycled (name : string) (tree : ParseTree)
    (w : World) (found : Extraction) (state : string) (count : Z) :
  extractTasks name tree = Done found ->
  mapGet state (taskStates found) = Some count ->
  let after := final (indexTasks name tree w) in
  indexStore after !! (name, "taskState:" +:+ state) = Some (SCount count)
  /\ 1 <= count
  /\ JS.includes binaryStates state = false
  /\ (JS.includesChar ":" state = false ->
      In state (statesOf after) /\ nextOf after state <> None).
Proof.
  intros Hfound Hcount. cbv zeta.
  destruct (extractTasks_records _ _ _ Hfound) as (items & _ & _ & Hstates).
  assert (indexStore (final (indexTasks name tree w))
            !! (name, "taskState:" +:+ state) = Some (SCount count)) as Hstored.
  { rewrite indexTasks_run, Hfound. cbv zeta. cbn [final indexStore].
    pose proof (countAll_distinct (fst <$> items)) as Hdistinct.
    rewrite <- Hstates in Hdistinct.
    destruct (in_split _ _ (mapGet_In _ _ _ Hcount)) as (before & rest & Hsplit).
    rewrite Hsplit, fmap_app, fmap_cons, app_assoc.
    apply storeAll_lookup_last.
    rewrite Hsplit, fmap_app, fmap_cons in Hdistinct.
    apply List.NoDup_remove_2 in Hdistinct. cbn [fst] in Hdistinct.
    intros Hlater.
    apply list_elem_of_In, list_elem_of_fmap in Hlater as ([k' v] & Hk & Hlater).
    apply list_elem_of_fmap in Hlater as ([state' count'] & [= -> ->] & Hlater).
    cbn [fst] in Hk. apply count_key_inj in Hk. subst state'.
    apply Hdistinct, in_app_iff. right. apply list_elem_of_In, list_elem_of_fmap.
    by exists (state, count'). }
  rewrite Hstates, countAll_get in Hcount.
  destruct (JS.includes binaryStates state) eqn:Hcustom; [discriminate|].
  destruct (Z.eqb_spec (occurrences state (fst <$> items)) 0) as [|Hsome];
    [discriminate|].
  injection Hcount as <-.
  split; [exact Hstored|]. split; [unfold occurrences in *; lia|].
  split; [reflexivity|]. intros Hcolon.
  assert (In state (statesOf (final (indexTasks name tree w)))) as Hknown.
  { unfold statesOf, knownStates. rewrite sort_elem, dedupe_elem.
    apply list_elem_of_In, list_elem_of_fmap.
    exists (mkEntry ("taskState:" +:+ state) name
              (SCount (occurrences state (fst <$> items)))).
    cbn [key]. split; [by rewrite keySegment_of_token|].
    apply list_elem_of_In, entriesWithPrefix_lookup.
    split; [exact Hstored|apply startsWith_app]. }
  split; [exact Hknown|]. rewrite (nextOf_custom _ _ Hcustom).
  by destruct (indexOf_of_In _ _ Hknown) as [i ->].
Qed.

End Frames.

Lemma page_without_tasks_indexes_nothing_witness :
  final (@indexTasks Scenario.lib "Journal"
           (Demo.place 0
              (Demo.N "Document" [Demo.N "Paragraph" [Demo.T "no list today"]]))
           Scenario.customWorld)
  = Scenario.customWorld.
Proof.
  destruct (@page_without_tasks_indexes_nothing Scenario.lib "Journal"
              (Demo.place 0
                 (Demo.N "Document" [Demo.N "Paragraph" [Demo.T "no list today"]]))
              Scenario.customWorld) as (_ & _ & Hsame); [reflexivity|].
  exact Hsame.
Defined.

Lemma indexed_tasks_are_queried_witness :
  In (mkEntry "task:2" "Groceries" (STask Scenario.milkExtracted))
    (Syscall.entriesWithPrefix "task:"
       (final (@indexTasks Scenario.lib "Groceries" (Demo.place 0 Scenario.milk)
                 Scenario.customWorld))).
Proof.
  destruct (@indexed_tasks_are_queried Scenario.lib tt "Groceries"
              (Demo.place 0 Scenario.milk) Scenario.customWorld _ eq_refl)
    as (_ & Hfound & _).
  - vm_compute. constructor; [tauto|constructor].
  - destruct (Hfound "task:2" Scenario.milkExtracted) as (offset & _ & Hin & _).
    + vm_compute. auto.
    + exact Hin.
Defined.

Lemma counted_state_can_be_cycled_witness :
  In "?" (statesOf (final (@indexTasks Scenario.lib "Plans"
                             (Demo.place 0 Scenario.plans) Scenario.customWorld))).
Proof.
  destruct (@counted_state_can_be_cycled Scenario.lib "Plans"
              (Demo.place 0 Scenario.plans) Scenario.customWorld _ "?" 1
              eq_refl eq_refl)
    as (_ & _ & _ & Hknown).
  apply Hknown. reflexivity.
Defined.

(** ** Clicks *)

Section Clicks.
Context `{Library}.

(** X9: a click that lands on no node, or on a node that is neither a
    task state nor one of its brackets, reads the buffer and does
    nothing else, with or without the Alt key. *)
Theorem click_off_task_state_is_inert (pageName : string) (pos : JS.JsNum)
    (w : World) :
  (forall p node,
     nodeAtPos (parseMarkdown (editorText w)) pos = Some (p, node) ->
     hasType "TaskMarker" node = false /\ hasType "TaskState" node = false) ->
  taskCycleAtPos pageName pos w = mkResult (Done tt) w [EvGetText]
  /\ forall alt,
       outcome (taskToggle (mkClickEvent pageName pos alt) w) = Done tt
       /\ final (taskToggle (mkClickEvent pageName pos alt) w) = w
       /\ existsb isWrite (events (taskToggle (mkClickEvent pageName pos alt) w))
          = false.
Proof.
  intros Hoff.
  assert (taskCycleAtPos pageName pos w = mkResult (Done tt) w [EvGetText]) as Hrun.
  { unfold taskCycleAtPos. run. cbn [Syscall.getText outcome final events].
    destruct (nodeAtPos (parseMarkdown (editorText w)) pos) as [[p node]|]; [|reflexivity].
    destruct (Hoff p node eq_refl) as [Hmarker Hstate].
    rewrite Hmarker. run. by rewrite Hstate. }
  split; [exact Hrun|]. intros [|]; unfold taskToggle; cbn [altKey clickPage clickPos].
  - by cbn.
  - by rewrite Hrun.
Qed.

End Clicks.

Lemma click_off_task_state_is_inert_witness :
  @taskCycleAtPos Scenario.lib "Home" (Some 0) Scenario.homeWorld
  = mkResult (Done tt) Scenario.homeWorld [EvGetText].
Proof.
  apply (@click_off_task_state_is_inert Scenario.lib "Home" (Some 0) Scenario.homeWorld).
  intros p node. vm_compute. intros [= <- <-]. split; reflexivity.
Defined.

(** ** Deadlines *)

Section Dates.

(** X10: the option [following Monday] moves a date by one to seven
    days, to a Monday, and to the first Monday after the date: a Monday
    itself is moved by a week; and no option moves a date back or by
    more than a week. *)
Theorem following_monday_is_the_next_monday (day : Z) :
  0 <= day <= 6 ->
  let days := postponeDays "following Monday" day in
  1 <= days <= 7
  /\ (day + days) mod 7 = 1
  /\ (forall k, 1 <= k < days -> (day + k) mod 7 <> 1)
  /\ forall option, 0 <= postponeDays option day <= 7.
Proof.
  intros Hday. cbv zeta.
  assert (day = 0 \/ day = 1 \/ day = 2 \/ day = 3 \/ day = 4 \/ day = 5 \/ day = 6)
    as Hcases by lia.
  assert (postponeDays "following Monday" day = if day <=? 1 then 1 + 6 * day else 8 - day)
    as ->.
  { destruct Hcases as [->|[->|[->|[->|[->|[->| ->]]]]]]; reflexivity. }
  split; [|split; [|split]].
  - destruct (Z.leb_spec day 1); lia.
  - destruct (Z.leb_spec day 1);
      [|by replace (day + (8 - day)) with 8 by lia].
    assert (day = 0 \/ day = 1) as [->| ->] by lia; reflexivity.
  - intros k Hk Hmod. destruct (Z.leb_spec day 1) as [Hle|Hgt].
    + assert (day = 1) as -> by lia.
      assert (k = 1 \/ k = 2 \/ k = 3 \/ k = 4 \/ k = 5 \/ k = 6) as Hks by lia.
      destruct Hks as [->|[->|[->|[->|[->| ->]]]]]; discriminate.
    + destruct (decide (day + k = 7)) as [Hweek|Hshort].
      * rewrite Hweek in Hmod. discriminate.
      * rewrite Z.mod_small in Hmod by lia. lia.
  - intros option. unfold postponeDays.
    destruct (String.eqb option "a day"); [lia|].
    destruct (String.eqb option "a week"); [lia|].
    destruct (String.eqb option "following Monday"); [|lia].
    destruct Hcases as [->|[->|[->|[->|[->|[->| ->]]]]]]; vm_compute; split; discriminate.
Qed.

Lemma stripPrefix_self (lit rest : string) : JS.stripPrefix lit (lit +:+ rest) = Some rest.
Proof.
  induction lit as [|a lit IH]; [reflexivity|].
  cbv [String.append]. cbn [JS.stripPrefix]. fold (String.append lit rest).
  by rewrite Ascii.eqb_refl.
Qed.

Lemma removeFirstWithSpace_unfold (lit s : string) :
  JS.removeFirstWithSpace lit s
  = match JS.stripPrefix lit s with
    | Some rest => JS.trimStart rest
    | None => match s with
              | EmptyString => EmptyString
              | String c rest => String c (JS.removeFirstWithSpace lit rest)
              end
    end.
Proof. by destruct s. Qed.

(** The first occurrence of the literal goes, with the white space
    after it. *)
Lemma removeFirstWithSpace_first (lit before rest : string) :
  (forall before' rest',
     before +:+ lit +:+ rest = before' +:+ lit +:+ rest' ->
     (String.length before <= String.length before')%nat) ->
  JS.removeFirstWithSpace lit (before +:+ lit +:+ rest) = before +:+ JS.trimStart rest.
Proof.
  induction before as [|c before IH]; intros Hfirst.
  - change ("" +:+ ?x) with x. by rewrite removeFirstWithSpace_unfold, stripPrefix_self.
  - rewrite removeFirstWithSpace_unfold.
    destruct (JS.stripPrefix lit _) as [rest'|] eqn:Hstrip.
    + apply stripPrefix_app in Hstrip. specialize (Hfirst "" rest' Hstrip).
      cbn in Hfirst. lia.
    + rewrite append_cons. rewrite IH; [reflexivity|].
      intros before' rest' Hsame.
      specialize (Hfirst (String c before') rest').
      rewrite !append_cons, Hsame in Hfirst. specialize (Hfirst eq_refl).
      cbn in Hfirst. lia.
Qed.

Lemma removeFirstWithSpace_none (lit text : string) :
  (forall before rest, text <> before +:+ lit +:+ rest) ->
  JS.removeFirstWithSpace lit text = text.
Proof.
  induction text as [|c text IH]; intros Hnone; rewrite removeFirstWithSpace_unfold.
  - destruct (JS.stripPrefix lit "") as [rest|] eqn:Hstrip; [|reflexivity].
    apply stripPrefix_app in Hstrip. by destruct (Hnone "" rest).
  - destruct (JS.stripPrefix lit (String c text)) as [rest|] eqn:Hstrip.
    + apply stripPrefix_app in Hstrip. by destruct (Hnone "" rest).
    + rewrite IH; [reflexivity|]. intros before rest ->.
      by destruct (Hnone (String c before) rest).
Qed.

Lemma trimStart_kept (s : string) : JS.spaceWidth s = O -> JS.trimStart s = s.
Proof.
  intros Hnone. unfold JS.trimStart. destruct s as [|c s]; [reflexivity|].
  cbn [JS.dropSpaces]. by rewrite Hnone.
Qed.

(** A literal that stands after a text without its first byte stands
    there for the first time. *)
Lemma first_after_free (lit before rest : string) :
  match lit with
  | String lead _ => JS.includesChar lead before = false
  | EmptyString => False
  end ->
  forall before' rest',
    before +:+ lit +:+ rest = before' +:+ lit +:+ rest' ->
    (String.length before <= String.length before')%nat.
Proof.
  destruct lit as [|lead lit]; [done|].
  induction before as [|c before IH]; intros Hfree before' rest' Hsame; [cbn; lia|].
  cbn [JS.includesChar] in Hfree. apply orb_false_iff in Hfree as [Hc Hfree].
  destruct before' as [|c' before'].
  - change ("" +:+ ?x) with x in Hsame. rewrite !append_cons in Hsame.
    injection Hsame as -> _. by rewrite Ascii.eqb_refl in Hc.
  - rewrite !append_cons in Hsame. injection Hsame as _ Hsame.
    specialize (IH Hfree _ _ Hsame). cbn. lia.
Qed.

(** X11: [getDeadline] removes the first deadline glyph of the node's
    text with the white space after it -- any character of the class
    [\s] -- and keeps what stands before it; a text in which the glyph
    does not occur is the deadline as it stands. *)
Theorem deadline_is_text_around_glyph (deadlineNode : ParseTree) (text : string) :
  childText deadlineNode 0 = Done text ->
  ((forall before rest, text <> before +:+ deadlineGlyph +:+ rest) ->
     getDeadline deadlineNode = Done text)
  /\ (forall before rest,
        text = before +:+ deadlineGlyph +:+ rest ->
        (forall before' rest',
           text = before' +:+ deadlineGlyph +:+ rest' ->
           (String.length before <= String.length before')%nat) ->
        getDeadline deadlineNode = Done (before +:+ JS.trimStart rest)).
Proof.
  intros Htext. unfold getDeadline. rewrite Htext. orun. split.
  - intros Hnone. by rewrite removeFirstWithSpace_none.
  - intros before rest -> Hfirst. by rewrite removeFirstWithSpace_first.
Qed.

(** X12: the text that [postponeCommand] writes over a deadline node,
    the glyph, a blank and a date, is read back by [getDeadline] as that
    date, for every date that does not start with a white-space
    character. *)
Theorem written_deadline_reads_back (deadlineNode : ParseTree) (date : string) :
  JS.spaceWidth date = O ->
  childText deadlineNode 0 = Done (deadlineText date) ->
  getDeadline deadlineNode = Done date.
Proof.
  intros Hdate Htext. unfold getDeadline. rewrite Htext. orun. unfold deadlineText.
  rewrite removeFirstWithSpace_unfold, stripPrefix_self.
  change (" " +:+ date) with (String " " date).
  unfold JS.trimStart. cbn [JS.dropSpaces].
  change (JS.spaceWidth (String " " date)) with 1%nat. cbv iota.
  fold (JS.trimStart date). by rewrite trimStart_kept.
Qed.

End Dates.

Lemma following_monday_is_the_next_monday_witness :
  1 <= postponeDays "following Monday" 1 <= 7
  /\ (1 + postponeDays "following Monday" 1) mod 7 = 1.
Proof.
  destruct (following_monday_is_the_next_monday 1) as (Hrange & Hmonday & _); [lia|].
  split; [exact Hrange | exact Hmonday].
Defined.

Lemma deadline_is_text_around_glyph_witness :
  getDeadline
    (Node "DeadlineDate" 11 31
       [TextNode 11 31
          ("due 📅" +:+ String (ascii_of_nat 194) (String (ascii_of_nat 160) " 2024-01-05"))])
  = Done "due 2024-01-05".
Proof.
  destruct (deadline_is_text_around_glyph
              (Node "DeadlineDate" 11 31
                 [TextNode 11 31
                    ("due 📅" +:+ String (ascii_of_nat 194)
                                   (String (ascii_of_nat 160) " 2024-01-05"))])
              _ eq_refl) as [_ Hfirst].
  apply (Hfirst "due " (String (ascii_of_nat 194) (String (ascii_of_nat 160) " 2024-01-05")));
    [reflexivity|].
  exact (first_after_free deadlineGlyph "due "
           (String (ascii_of_nat 194) (String (ascii_of_nat 160) " 2024-01-05"))
           eq_refl).
Defined.

Lemma written_deadline_reads_back_witness :
  getDeadline (Node "DeadlineDate" 11 24 [TextNode 11 24 (deadlineText "2024-01-12")])
  = Done "2024-01-12".
Proof.
  apply (written_deadline_reads_back
           (Node "DeadlineDate" 11 24 [TextNode 11 24 (deadlineText "2024-01-12")])
           "2024-01-12"); reflexivity.
Defined.

(** ** The message-queue hook *)

Section Queues.
Variable fullQueueName : string -> string -> string.

Lemma subscribed_nil (h : MQ.Hook) : subscribed fullQueueName [] h = h.
Proof.
  destruct h as [held n log]. unfold subscribed. cbn.
  by rewrite !app_nil_r, Nat.add_0_r.
Qed.

Lemma subscribed_app (first second : list (MQ.Plug * string * MQ.MQSubscription))
    (h : MQ.Hook) :
  subscribed fullQueueName second (subscribed fullQueueName first h)
  = subscribed fullQueueName (first ++ second) h.
Proof.
  unfold subscribed. cbn [MQ.subscriptions MQ.answered MQ.calls].
  rewrite length_app, seq_app, fmap_app, <- !app_assoc, Nat.add_assoc.
  reflexivity.
Qed.

Lemma subscribe_subscribed (plug : MQ.Plug) (name : string)
    (subscriptionDef : MQ.MQSubscription) (h : MQ.Hook) :
  MQ.subscribe fullQueueName plug name subscriptionDef h
  = subscribed fullQueueName [(plug, name, subscriptionDef)] h.
Proof. unfold MQ.subscribe, subscribed. cbn. by rewrite Nat.add_1_r. Qed.

Lemma subscribeFunctions_subscribed (plug : MQ.Plug) (m : MQ.Manifest) (h : MQ.Hook) :
  MQ.subscribeFunctions fullQueueName plug m h
  = subscribed fullQueueName
      ((fun '(name, subscriptionDef) => (plug, name, subscriptionDef))
         <$> subscriptionsOf m) h.
Proof.
  unfold MQ.subscribeFunctions, subscriptionsOf. revert h.
  induction (MQ.functions m) as [|[name functionDef] rest IH]; intros h.
  - cbn. by rewrite subscribed_nil.
  - cbn [foldl]. rewrite IH, bind_cons, fmap_app, <- subscribed_app. f_equal.
    destruct (MQ.mqSubscriptions functionDef) as [subs|]; cbn [default];
      [|by rewrite subscribed_nil].
    clear. revert h. induction subs as [|sub subs IHsubs]; intros h.
    + cbn. by rewrite subscribed_nil.
    + cbn [foldl]. rewrite IHsubs, subscribe_subscribed, subscribed_app. reflexivity.
Qed.

Lemma reload_subscribed (loadedPlugs : list MQ.Plug) (h : MQ.Hook) :
  foldl (fun h plug =>
           match MQ.manifest plug with
           | None => h
           | Some m => MQ.subscribeFunctions fullQueueName plug m h
           end) h loadedPlugs
  = subscribed fullQueueName (wanted loadedPlugs) h.
Proof.
  unfold wanted. revert h. induction loadedPlugs as [|plug rest IH]; intros h.
  - cbn. by rewrite subscribed_nil.
  - cbn [foldl]. rewrite IH, bind_cons, <- subscribed_app. f_equal.
    destruct (MQ.manifest plug) as [m|].
    + apply subscribeFunctions_subscribed.
    + cbn. by rewrite subscribed_nil.
Qed.

Lemma reloadQueues_run (loadedPlugs : list MQ.Plug) (h : MQ.Hook) :
  MQ.reloadQueues fullQueueName loadedPlugs h
  = MQ.mkHook
      (seq (MQ.answered h) (List.length (wanted loadedPlugs)))
      (MQ.answered h + List.length (wanted loadedPlugs))
      (MQ.calls h ++ (MQ.Unsubscribe <$> MQ.subscriptions h)
         ++ (subscribeCall fullQueueName <$> wanted loadedPlugs)).
Proof.
  unfold MQ.reloadQueues. rewrite reload_subscribed. unfold subscribed, MQ.stop.
  cbn [MQ.subscriptions MQ.answered MQ.calls]. by rewrite <- app_assoc.
Qed.

Lemma released_app (first second : list MQ.Call) :
  released (first ++ second) = (released first ++ released second)%list.
Proof. apply omap_app. Qed.

Lemma released_unsubscribe (handles : list MQ.Handle) :
  released (MQ.Unsubscribe <$> handles) = handles.
Proof.
  induction handles as [|x handles IH]; [done|].
  unfold released in *. cbn [fmap list_fmap omap list_omap]. by rewrite IH.
Qed.

Lemma released_subscribe (items : list (MQ.Plug * string * MQ.MQSubscription)) :
  released (subscribeCall fullQueueName <$> items) = [].
Proof. induction items as [|[[plug name] sub] items IH]; [done|]. exact IH. Qed.

Lemma issued_app (first second : list MQ.Call) :
  issued (first ++ second) = (issued first + issued second)%nat.
Proof. unfold issued. by rewrite List.filter_app, length_app. Qed.

Lemma issued_unsubscribe (handles : list MQ.Handle) :
  issued (MQ.Unsubscribe <$> handles) = O.
Proof. induction handles as [|x handles IH]; [done|]. exact IH. Qed.

Lemma issued_subscribe (items : list (MQ.Plug * string * MQ.MQSubscription)) :
  issued (subscribeCall fullQueueName <$> items) = List.length items.
Proof.
  induction items as [|[[plug name] sub] items IH]; [done|].
  unfold issued in *. cbn. by rewrite <- IH.
Qed.

(** X13: whatever the hook held before, a reload first calls every
    unsubscribe function it holds, in order, then subscribes once for
    every subscription of every function of every loaded plug that has
    a manifest, in the order plug, function, subscription, to the full
    name of the queue and with the batch size of the subscription; it
    holds exactly the functions these calls returned, so the number of
    subscriptions held does not grow from reload to reload. *)
Theorem reload_subscribes_what_is_wanted (loadedPlugs : list MQ.Plug) (h : MQ.Hook) :
  let reloaded := MQ.reloadQueues fullQueueName loadedPlugs h in
  MQ.calls reloaded
  = (MQ.calls h ++ (MQ.Unsubscribe <$> MQ.subscriptions h)
       ++ (subscribeCall fullQueueName <$> wanted loadedPlugs))%list
  /\ MQ.subscriptions reloaded
     = seq (MQ.answered h) (List.length (wanted loadedPlugs))
  /\ List.length (MQ.subscriptions reloaded) = List.length (wanted loadedPlugs)
  /\ MQ.calls (MQ.reloadQueues fullQueueName loadedPlugs reloaded)
     = (MQ.calls reloaded ++ (MQ.Unsubscribe <$> MQ.subscriptions reloaded)
          ++ (subscribeCall fullQueueName <$> wanted loadedPlugs))%list
  /\ MQ.calls (MQ.stop (MQ.stop reloaded)) = MQ.calls (MQ.stop reloaded).
Proof.
  cbv zeta. rewrite !reloadQueues_run. cbn [MQ.calls MQ.subscriptions MQ.answered].
  split; [reflexivity|]. split; [reflexivity|]. split; [apply length_seq|].
  split; [reflexivity|]. unfold MQ.stop. cbn. by rewrite app_nil_r.
Qed.

(** X14: through every life of a hook -- reloads, for whatever plugs
    are loaded at the time, and stops, in any order -- the unsubscribe
    functions called so far, followed by the ones the hook holds, are
    the functions that [mq.subscribe] returned so far, in the order it
    returned them: each one is called at most once, none is called
    that was not returned, and the hook holds exactly the ones not yet
    called. *)
Theorem hook_releases_each_handle_once (steps : list MQ.Step) :
  let h := MQ.run fullQueueName steps in
  (released (MQ.calls h) ++ MQ.subscriptions h)%list = seq 0 (MQ.answered h)
  /\ MQ.answered h = issued (MQ.calls h)
  /\ List.NoDup (released (MQ.calls h))
  /\ forall handle, In handle (MQ.subscriptions h) ->
       ~ In handle (released (MQ.calls h)).
Proof.
  cbv zeta.
  assert ((released (MQ.calls (MQ.run fullQueueName steps))
             ++ MQ.subscriptions (MQ.run fullQueueName steps))%list
          = seq 0 (MQ.answered (MQ.run fullQueueName steps))
          /\ MQ.answered (MQ.run fullQueueName steps)
             = issued (MQ.calls (MQ.run fullQueueName steps))) as [Hall Hcount].
  { unfold MQ.run. induction steps as [|s steps IH] using rev_ind; [done|].
    rewrite foldl_app. cbn [foldl]. destruct IH as [Hall Hcount].
    set (h := foldl (MQ.step fullQueueName) MQ.fresh steps) in *.
    destruct s as [loadedPlugs|]; cbn [MQ.step].
    - rewrite reloadQueues_run. cbn [MQ.calls MQ.subscriptions MQ.answered].
      rewrite !released_app, released_unsubscribe, released_subscribe, app_nil_r.
      rewrite !issued_app, issued_unsubscribe, issued_subscribe, Nat.add_0_l.
      rewrite seq_app, Hall, Hcount. by split.
    - unfold MQ.stop. cbn [MQ.calls MQ.subscriptions MQ.answered].
      rewrite released_app, released_unsubscribe, issued_app, issued_unsubscribe.
      rewrite app_nil_r, Nat.add_0_r. by split. }
  split; [exact Hall|]. split; [exact Hcount|].
  pose proof (List.seq_NoDup (MQ.answered (MQ.run fullQueueName steps)) 0) as Hdistinct.
  rewrite <- Hall in Hdistinct. split.
  - by apply List.NoDup_app_remove_r in Hdistinct.
  - intros handle Hheld Hcalled. revert Hdistinct Hheld Hcalled.
    generalize (released (MQ.calls (MQ.run fullQueueName steps))) as called.
    generalize (MQ.subscriptions (MQ.run fullQueueName steps)) as held.
    intros held called Hdistinct Hheld Hcalled.
    induction called as [|x called IH]; [done|].
    cbn in Hdistinct. apply List.NoDup_cons_iff in Hdistinct as [Hfresh Hdistinct].
    destruct Hcalled as [->|Hcalled]; [|by apply IH].
    apply Hfresh, in_app_iff. by right.
Qed.

Lemma validateManifest_run (m : MQ.Manifest) :
  MQ.validateManifest m
  = (fun _ => MQ.missingQueue)
      <$> List.filter (fun item => MQ.isEmpty (MQ.queue item.2)) (subscriptionsOf m).
Proof.
  unfold MQ.validateManifest, subscriptionsOf.
  assert (forall errors,
            foldl (fun errors '(_, functionDef) =>
                     match MQ.mqSubscriptions functionDef with
                     | None => errors
                     | Some subscriptions =>
                         foldl (fun errors subscriptionDef =>
                                  if MQ.isEmpty (MQ.queue subscriptionDef)
                                  then (errors ++ [MQ.missingQueue])%list
                                  else errors)
                           errors subscriptions
                     end) errors (MQ.functions m)
            = (errors
               ++ ((fun _ => MQ.missingQueue)
                     <$> List.filter (fun item => MQ.isEmpty (MQ.queue item.2))
                           ('(name, functionDef) ← MQ.functions m;
                            (fun subscriptionDef => (name, subscriptionDef))
                              <$> default [] (MQ.mqSubscriptions functionDef))))%list)
    as Hfold; [|by rewrite Hfold].
  induction (MQ.functions m) as [|[name functionDef] rest IH]; intros errors.
  - cbn. by rewrite app_nil_r.
  - cbn [foldl]. rewrite IH, bind_cons, List.filter_app, fmap_app, app_assoc. f_equal.
    destruct (MQ.mqSubscriptions functionDef) as [subs|]; cbn [default];
      [|cbn; by rewrite app_nil_r].
    unfold id. clear. revert errors. induction subs as [|sub subs IHsubs]; intros errors.
    + cbn. by rewrite app_nil_r.
    + cbn [foldl fmap list_fmap List.filter snd]. rewrite IHsubs.
      destruct (MQ.isEmpty (MQ.queue sub)); [|reflexivity].
      cbn [fmap list_fmap]. by rewrite <- app_assoc.
Qed.

Lemma validateManifest_named (m : MQ.Manifest) :
  MQ.validateManifest m = []
  <-> Forall (fun item => MQ.queue item.2 <> "") (subscriptionsOf m).
Proof.
  rewrite validateManifest_run.
  induction (subscriptionsOf m) as [|[name sub] items IH].
  - cbn. split; [constructor|done].
  - cbn [List.filter snd]. rewrite Forall_cons, <- IH. unfold MQ.isEmpty.
    destruct (String.eqb_spec (MQ.queue sub) "") as [Hempty|Hnamed]; cbn [snd].
    + cbn. split; [discriminate|]. intros [Hne _]. congruence.
    + tauto.
Qed.

(** X15: [validateManifest] answers one error, always the same text,
    for every subscription, of any function, whose queue name is empty,
    and nothing else: the manifest passes exactly when every
    subscription names its queue, and a function without subscriptions
    is never an error. *)
Theorem manifest_errors_count_nameless_queues (m : MQ.Manifest) :
  MQ.validateManifest m
  = (fun _ => MQ.missingQueue)
      <$> List.filter (fun item => MQ.isEmpty (MQ.queue item.2)) (subscriptionsOf m)
  /\ (MQ.validateManifest m = []
      <-> Forall (fun item => MQ.queue item.2 <> "") (subscriptionsOf m))
  /\ forall name, MQ.validateManifest
                    (MQ.mkManifest (MQ.functions m ++ [(name, MQ.mkFunctionDef None)]))
                  = MQ.validateManifest m.
Proof.
  split; [apply validateManifest_run|]. split; [apply validateManifest_named|].
  intros name. rewrite !validateManifest_run. unfold subscriptionsOf.
  cbn [MQ.functions]. rewrite bind_app. cbn. by rewrite app_nil_r.
Qed.

(** X16: when the manifest of every loaded plug passes
    [validateManifest], every subscription a reload makes is for a queue
    with a name; and the callback of each subscription acknowledges, if
    at all, on the queue it was subscribed to, the identifiers of the
    messages it was given, in their order, and only after the plug's
    function returned. *)
Theorem validated_plugs_subscribe_named_queues (loadedPlugs : list MQ.Plug)
    (h : MQ.Hook) :
  (forall plug m, In plug loadedPlugs -> MQ.manifest plug = Some m ->
     MQ.validateManifest m = []) ->
  Forall (fun item => MQ.queue item.2 <> "") (wanted loadedPlugs)
  /\ forall queue batchSize callback,
       In (MQ.Subscribe queue batchSize callback)
         (subscribeCall fullQueueName <$> wanted loadedPlugs) ->
       (exists plug name subscriptionDef,
          In (plug, name, subscriptionDef) (wanted loadedPlugs)
          /\ MQ.queue subscriptionDef <> ""
          /\ queue = fullQueueName (MQ.plugName plug) (MQ.queue subscriptionDef)
          /\ batchSize = MQ.batchSize subscriptionDef)
       /\ forall messages invoked acked queue' ids,
            In (MQ.BatchAck queue' ids) (MQ.deliver callback messages invoked acked).2 ->
            queue' = queue /\ ids = MQ.id <$> messages /\ invoked = Done tt.
Proof.
  intros Hvalid.
  assert (Forall (fun item => MQ.queue item.2 <> "") (wanted loadedPlugs)) as Hnamed.
  { unfold wanted. apply Forall_forall. intros [[plug name] sub] Hin.
    apply list_elem_of_bind in Hin as (plug' & Hin & Hplug).
    destruct (MQ.manifest plug') as [m|] eqn:Hm; [|by apply elem_of_nil in Hin].
    apply list_elem_of_fmap in Hin as ([name' sub'] & [= <- <- <-] & Hin).
    pose proof (Hvalid plug m (proj1 (list_elem_of_In _ _) Hplug) Hm) as Hpass.
    apply validateManifest_named in Hpass. rewrite Forall_forall in Hpass.
    exact (Hpass _ Hin). }
  split; [exact Hnamed|]. intros queue batchSize callback Hcall.
  apply list_elem_of_In, list_elem_of_fmap in Hcall as ([[plug name] sub] & Hcall & Hin).
  cbn in Hcall. injection Hcall as -> -> ->. split.
  - exists plug, name, sub. rewrite Forall_forall in Hnamed.
    split; [by apply list_elem_of_In|]. split; [exact (Hnamed _ Hin)|]. by split.
  - intros messages invoked acked queue' ids. unfold MQ.deliver.
    cbn [MQ.ofPlug MQ.ofFunction MQ.onQueue MQ.acks].
    destruct invoked as [[]|], (MQ.truthy (MQ.autoAck sub)), acked as [[]|]; cbn;
      intuition congruence.
Qed.

End Queues.

(** ** Backlinks into stored pages *)

Section StoredPage.
Context `{Library}.

Lemma string_append_assoc (a b c : string) : (a +:+ b) +:+ c = a +:+ b +:+ c.
Proof.
  induction a as [|x a IH]; [reflexivity|].
  rewrite !append_cons. by rewrite IH.
Qed.

Lemma string_append_nil (a : string) : a +:+ "" = a.
Proof. induction a as [|x a IH]; [reflexivity|]. by rewrite append_cons, IH. Qed.

Lemma subtree_app (t : ParseTree) (p q : Path) :
  subtree t (p ++ q)%list = subtree t p ≫= fun n => subtree n q.
Proof.
  revert t. induction p as [|i p IH]; intros t; [reflexivity|].
  cbn [app subtree]. destruct t as [a b s|ty a b cs]; [reflexivity|].
  destruct (cs !! i) as [c|]; cbn [mbind option_bind]; [apply IH|reflexivity].
Qed.

(** A change below a node shows in the rendering at the place of the
    changed node, and nowhere else. *)
Lemma render_updateAt (p : Path) :
  forall t n,
    subtree t p = Some n ->
    exists before after,
      renderToText t = before +:+ renderToText n +:+ after
      /\ forall f,
           renderToText (updateAt t p f) = before +:+ renderToText (f n) +:+ after.
Proof.
  induction p as [|i p IH]; intros t n; cbn [subtree updateAt].
  - intros [= ->]. exists "", "". split.
    + rewrite string_append_nil. reflexivity.
    + intros f. rewrite string_append_nil. by destruct n.
  - destruct t as [a b s|ty a b cs]; [discriminate|]. cbn [renderToText].
    revert i. induction cs as [|c cs IHcs]; intros [|i]; cbn [lookup list_lookup];
      try discriminate.
    + cbn [mbind option_bind]. intros Hn.
      destruct (IH c n Hn) as (before & after & Hrender & Hupdate).
      exists before, (after +:+ JS.join (List.map renderToText cs)). split.
      * cbn [List.map JS.join foldr]. fold (JS.join (List.map renderToText cs)).
        by rewrite Hrender, !string_append_assoc.
      * intros f. cbn [updateAt renderToText alter list_alter List.map JS.join foldr].
        fold (JS.join (List.map renderToText cs)).
        by rewrite Hupdate, !string_append_assoc.
    + intros Hn. destruct (IHcs i Hn) as (before & after & Hrender & Hupdate).
      exists (renderToText c +:+ before), after. split.
      * cbn [List.map JS.join foldr]. fold (JS.join (List.map renderToText cs)).
        by rewrite Hrender, !string_append_assoc.
      * intros f. specialize (Hupdate f). cbn [updateAt renderToText] in Hupdate.
        cbn [updateAt renderToText alter list_alter List.map JS.join foldr].
        fold (JS.join (List.map renderToText (alter (fun c => updateAt c p f) i cs))).
        by rewrite Hupdate, !string_append_assoc.
Qed.

(** X17: a backlink into a stored page whose offset is written as a
    decimal integer and hits a task state with a second child rewrites
    that page as the rendering of its parse tree with the text of that
    child replaced by the new token; everything before and after it in
    the rendering is kept, the page is read once, written once and
    scheduled for sync, and the open buffer and the index are left as
    they are. *)
Theorem stored_backlink_rewrites_the_state (pageName stateText changeTo : string)
    (wikiLink : ParseTree) (w : World) (ref page posS : string) (rest : list string)
    (offset : Z) (text : string) (p : Path) (n target : ParseTree) :
  childText wikiLink 0 = Done ref ->
  JS.split "@" ref = page :: posS :: rest ->
  JS.toNumber posS = Some offset ->
  page <> pageName ->
  pages w !! page = Some text ->
  storedTaskStateAt page (Some offset) w = Some (p, n) ->
  childAt n 1 = Done (Some target) ->
  exists before after,
    renderToText (parseMarkdown text) = before +:+ renderToText target +:+ after
    /\ propagateTo pageName stateText changeTo wikiLink w
       = mkResult (Done Next)
           (mkWorld (editorText w)
              (<[page := before +:+ changeTo +:+ after]> (pages w)) (indexStore w))
           [EvReadPage page; EvWritePage page (before +:+ changeTo +:+ after);
            EvScheduleFileSync (page +:+ ".md")].
Proof.
  intros Href Hsplit Hpos Hne Hpage Hstate Htarget.
  rewrite (propagateTo_stored_page _ _ _ _ _ _ _ _ _ Href Hsplit Hne).
  rewrite Hpos, Hpage, Hstate, Htarget. cbv zeta.
  assert (subtree (parseMarkdown text) (p ++ [1%nat])%list = Some target) as Hpath.
  { unfold storedTaskStateAt in Hstate. rewrite Hpage in Hstate.
    cbn [mbind option_bind] in Hstate.
    destruct (nodeAtPos (parseMarkdown text) _) as [[p' n']|] eqn:Hfound;
      cbn [mbind option_bind] in Hstate; [|discriminate].
    destruct (hasType "TaskState" n'); [|discriminate].
    injection Hstate as -> ->.
    rewrite subtree_app, (nodeAtPos_subtree _ _ _ _ Hfound). cbn [mbind option_bind].
    unfold childAt in Htarget. destruct n as [a b s|ty a b cs]; [discriminate|].
    cbn in Htarget. cbn [subtree]. injection Htarget as ->. reflexivity. }
  destruct (render_updateAt _ _ _ Hpath) as (before & after & Hrender & Hupdate).
  exists before, after. split; [exact Hrender|]. by rewrite Hupdate.
Qed.

End StoredPage.

Lemma stored_backlink_rewrites_the_state_witness :
  exists before after,
    "- [!] call" = before +:+ "!" +:+ after
    /\ pages (final (@propagateTo Scenario.lib "Home" "x" " "
                       (Node "WikiLinkPage" 8 15 [TextNode 8 15 "Other@2"])
                       Scenario.homeWorld))
       = <["Other" := before +:+ " " +:+ after]> (pages Scenario.homeWorld).
Proof.
  destruct (@stored_backlink_rewrites_the_state Scenario.lib "Home" "x" " "
              (Node "WikiLinkPage" 8 15 [TextNode 8 15 "Other@2"])
              Scenario.homeWorld "Other@2" "Other" "2" [] 2 "- [!] call"
              [0; 0; 2; 0]%nat
              (Node "TaskState" 2 5
                 [Node "TaskMarker" 2 3 [TextNode 2 3 "["]; TextNode 3 4 "!";
                  Node "TaskMarker" 4 5 [TextNode 4 5 "]"]])
              (TextNode 3 4 "!"))
    as (before & after & Hrender & Hrun);
    [reflexivity | reflexivity | reflexivity | discriminate | reflexivity
    | reflexivity | reflexivity |].
  exists before, after. split.
  - exact Hrender.
  - by rewrite Hrun.
Defined.

Lemma validated_plugs_subscribe_named_queues_witness :
  Forall (fun item => MQ.queue item.2 <> "")
    (wanted
       [MQ.mkPlug "index"
          (Some (MQ.mkManifest
                   [("processIndexQueue",
                     MQ.mkFunctionDef
                       (Some [MQ.mkMQSubscription "indexQueue" (Some 10) (Some true)]));
                    ("reindex", MQ.mkFunctionDef None)]));
        MQ.mkPlug "core" None]).
Proof.
  apply (validated_plugs_subscribe_named_queues
           (fun plug queue => plug +:+ "." +:+ queue) _ MQ.fresh).
  intros plug m [<-|[<-|[]]]; [|discriminate]. intros [= <-]. reflexivity.
Defined.

(** ** The choice of the next state *)

Section Choice.
Context `{Library}.

(** X18: the choice of the next state leaves the world as it is and
    writes nothing; for a binary token it makes no call, for a custom
    token its first call is the query of the index; and it reports an
    error exactly when it chooses no state. *)
Theorem choice_reads_and_never_writes (stateText : string) (w : World) :
  let choice := chooseNextState stateText w in
  final choice = w
  /\ existsb isWrite (events choice) = false
  /\ (JS.includes binaryStates stateText = true -> events choice = [])
  /\ (JS.includes binaryStates stateText = false ->
      exists rest, events choice = EvQueryPrefix "taskState:" :: rest)
  /\ (outcome choice = Done None
      <-> In (EvConsoleError "Unknown state") (events choice)).
Proof.
  cbv zeta.
  destruct (JS.includes binaryStates stateText) eqn:Hbinary.
  - assert (exists next, chooseNextState stateText w = mkResult (Done (Some next)) w [])
      as [next ->].
    { unfold chooseNextState. revert Hbinary.
      unfold JS.includes, binaryStates, completeStates, incompleteStates. cbn.
      destruct (String.eqb stateText "x"), (String.eqb stateText "X"),
        (String.eqb stateText " "); cbn; try discriminate; eauto. }
    cbn [outcome final events existsb In].
    split; [done|]. split; [done|]. split; [done|].
    split; [done|]. split; [done|tauto].
  - destruct (binary_split _ Hbinary) as [Hc Hi].
    rewrite (chooseNextState_custom _ _ Hc Hi). cbv zeta.
    destruct (JS.indexOf stateText _) as [i|]; cbn [outcome final events existsb isWrite].
    + split; [done|]. split; [done|]. split; [done|].
      split; [eauto|]. split; [done|]. cbn. intuition congruence.
    + split; [done|]. split; [done|]. split; [done|].
      split; [eauto|]. split; [|done]. cbn. tauto.
Qed.

End Choice.
